(** * Scene compiler and frame recorder: shallow embedding and properties

    The development follows the two Python modules
    [engine/data_components/data_shader.py] and
    [engine/data_components/data_scene.py].

    - Python integers are [Z]; lengths, list positions and native handles
      are [nat].
    - Python exceptions are values of [exn]; a computation that may raise
      returns a [result].
    - Calls into the Vulkan helper layer ([hvk]) and the memory manager are
      effects: they are appended to a log carried by the state [Vk],
      together with a counter from which fresh native handles are drawn.
    - Python objects that are shared and mutated (the game objects held both
      by [DataScene.objects] and by the shader groups) are modelled by their
      position in the object store, so that an update through one alias is
      seen through the other. *)

From Stdlib Require Import ZArith List Bool Lia String Arith Permutation Sorted.
Import ListNotations.

Set Implicit Arguments.

(* ===================================================================== *)
(** ** Python runtime: exceptions, indexing, slices, ranges, dicts       *)
(* ===================================================================== *)

Module Py.

(** The exceptions the modules raise. [SegmentationFault] is not a Python
    exception: it stands for the interpreter being killed; as nothing in
    the two modules handles an exception, it ends a call as a raised
    exception does. *)
Inductive exn : Type :=
| ValueError
| TypeError
| IndexError
| AttributeError
| OverflowError
| SegmentationFault.

(** The largest [Py_ssize_t] of CPython on a 64-bit platform. *)
Definition PY_SSIZE_T_MAX : Z := 9223372036854775807.

Inductive result (A : Type) : Type :=
| Ok (a : A)
| Raise (e : exn).

Arguments Ok {A} a.
Arguments Raise {A} e.

Definition is_ok {A} (r : result A) : bool :=
  match r with Ok _ => true | Raise _ => false end.

(** [l[i]] for an integer [i]: negative indices count from the end, an index
    outside [-len, len) raises [IndexError]. *)
Definition getitem {A} (l : list A) (i : Z) : result A :=
  let n := Z.of_nat (List.length l) in
  let j := if (i <? 0)%Z then (i + n)%Z else i in
  if ((0 <=? j)%Z && (j <? n)%Z)%bool then
    match nth_error l (Z.to_nat j) with
    | Some x => Ok x
    | None => Raise IndexError
    end
  else Raise IndexError.

(** [l[i]] when [i] may be [None]: indexing a list with [None] is a
    [TypeError]. *)
Definition getitem_opt {A} (l : list A) (i : option Z) : result A :=
  match i with
  | Some z => getitem l z
  | None => Raise TypeError
  end.

(** [l[i:j]] for [0 <= i]: the slice is clipped to the list. *)
Definition slice {A} (l : list A) (i j : nat) : list A :=
  firstn (j - i) (skipn i l).

(** [range(0, stop, step)]: a zero step raises [ValueError]. *)
Definition range_step (stop step : nat) : result (list nat) :=
  if Nat.eqb step 0 then Raise ValueError
  else Ok (map (fun k => k * step) (seq 0 ((stop + step - 1) / step))).

(** [l * n] on lists. *)
Fixpoint repeat_list {A} (l : list A) (n : nat) : list A :=
  match n with
  | O => []
  | S n' => l ++ repeat_list l n'
  end.

(** [sum(...)] over integers. *)
Definition sum (l : list Z) : Z := fold_left Z.add l 0%Z.

(** Position of the first occurrence, [list.index]. *)
Fixpoint index {A} (eqb : A -> A -> bool) (x : A) (l : list A) : nat :=
  match l with
  | [] => O
  | y :: l' => if eqb x y then O else S (index eqb x l')
  end.

(** In-place update of the element at position [i] (no effect out of
    range; the callers below only use positions returned by [index]). *)
Fixpoint update_at {A} (l : list A) (i : nat) (f : A -> A) : list A :=
  match l, i with
  | [], _ => []
  | x :: l', O => f x :: l'
  | x :: l', S i' => x :: update_at l' i' f
  end.

(** A [dict] keeps its keys in insertion order; assigning to an existing
    key keeps the key's position. [dict_upsert k fresh upd d] is
    [d[k] = upd(d[k])] when [k in d] and [d[k] = fresh] otherwise. *)
Fixpoint dict_upsert {K V} (eqb : K -> K -> bool) (k : K) (fresh : V)
         (upd : V -> V) (d : list (K * V)) : list (K * V) :=
  match d with
  | [] => [(k, fresh)]
  | (k', v) :: d' =>
      if eqb k k' then (k', upd v) :: d'
      else (k', v) :: dict_upsert eqb k fresh upd d'
  end.

Definition dict_values {K V} (d : list (K * V)) : list V := map snd d.

(** [sorted(l, key=...)]: a stable sort on integer keys (an element is
    inserted in front of the later elements of equal key). *)
Fixpoint insert_sorted {A} (key : A -> Z) (x : A) (l : list A) : list A :=
  match l with
  | [] => [x]
  | y :: l' =>
      if (key x <=? key y)%Z then x :: y :: l'
      else y :: insert_sorted key x l'
  end.

Definition sorted {A} (key : A -> Z) (l : list A) : list A :=
  fold_right (insert_sorted key) [] l.

(** Keys of a sequence in first-encounter order. *)
Fixpoint firsts {A} (eq_dec : forall x y : A, {x = y} + {x <> y})
         (l : list A) : list A :=
  match l with
  | [] => []
  | x :: l' => x :: remove eq_dec x (firsts eq_dec l')
  end.

End Py.

Import Py.

(* ===================================================================== *)
(** ** The native layer: handles, create-info structures, call log       *)
(* ===================================================================== *)

Definition handle := nat.

(** Vulkan constants used by the two modules. *)
Module vk.
Definition SHADER_STAGE_VERTEX_BIT : Z := 1.
Definition SHADER_STAGE_FRAGMENT_BIT : Z := 16.
Definition DESCRIPTOR_TYPE_UNIFORM_BUFFER : Z := 6.
Definition BUFFER_USAGE_TRANSFER_SRC_BIT : Z := 1.
Definition BUFFER_USAGE_TRANSFER_DST_BIT : Z := 2.
Definition BUFFER_USAGE_UNIFORM_BUFFER_BIT : Z := 16.
Definition BUFFER_USAGE_INDEX_BUFFER_BIT : Z := 64.
Definition BUFFER_USAGE_VERTEX_BUFFER_BIT : Z := 128.
Definition MEMORY_PROPERTY_DEVICE_LOCAL_BIT : Z := 1.
Definition MEMORY_PROPERTY_HOST_VISIBLE_BIT : Z := 2.
Definition MEMORY_PROPERTY_HOST_COHERENT_BIT : Z := 4.
End vk.

Record StageInfo := mkStageInfo { si_stage : Z; si_module : handle }.

Record VertexBindingDescription :=
  mkVertexBinding { vb_binding : Z; vb_stride : Z }.

Record VertexAttributeDescription :=
  mkVertexAttribute
    { va_location : Z; va_binding : Z; va_format : Z; va_offset : Z }.

Record VertexInputState :=
  mkVertexInputState
    { vertex_binding_descriptions : list VertexBindingDescription;
      vertex_attribute_descriptions : list VertexAttributeDescription }.

Record LayoutBinding :=
  mkLayoutBinding
    { lb_binding : Z; lb_descriptor_type : Z; lb_descriptor_count : Z;
      lb_stage_flags : Z }.

(** [graphics_pipeline_create_info]: the fields that vary between shaders
    and the baked extent; the assembly, rasterization, multisample,
    depth-stencil and colour-blend states are the same constants for every
    pipeline and are left out. *)
Record PipelineInfo :=
  mkPipelineInfo
    { pi_stages : list StageInfo;
      pi_vertex_input_state : VertexInputState;
      pi_extent : Z * Z;
      pi_layout : handle;
      pi_render_pass : handle }.

Record BufferInfo :=
  mkBufferInfo { bi_buffer : handle; bi_offset : Z; bi_range : Z }.

Record WriteSet :=
  mkWriteSet
    { ws_dst_set : handle; ws_dst_binding : Z; ws_descriptor_type : Z;
      ws_buffer_info : BufferInfo }.

(** An allocation of the memory manager. *)
Record Alloc := mkAlloc { alloc_id : handle; alloc_size : Z }.

(** Every call that reaches the device, the memory manager or a command
    buffer. *)
Inductive VkCall : Type :=
| create_shader_module (code : list Z) (h : handle)
| create_descriptor_set_layout (bindings : list LayoutBinding) (h : handle)
| create_pipeline_layout (set_layouts : list handle) (h : handle)
| destroy_descriptor_set_layout (h : handle)
| destroy_pipeline_layout (h : handle)
| destroy_shader_module (h : handle)
| create_buffer (size usage : Z) (h : handle)
| destroy_buffer (h : handle)
| mem_alloc (resource : handle) (flags : Z) (a : Alloc)
| mem_free_alloc (a : Alloc)
| alloc_write_bytes (a : Alloc) (offset : Z) (mesh : nat)
| alloc_memset (a : Alloc) (value size : Z)
| copy_buffer (cmd src dst : handle) (size : Z)
| submit_setup_command (wait : bool)
| create_pipeline_cache (h : handle)
| create_graphics_pipelines (infos : list PipelineInfo) (cache : handle)
                            (hs : list handle)
| create_descriptor_pool (max_sets : Z) (pool_sizes : list (Z * Z))
                         (h : handle)
| allocate_descriptor_sets (pool : handle) (set_layouts : list handle)
                           (hs : list handle)
| update_descriptor_sets (writes : list WriteSet)
| create_command_pool (queue_family_index : Z) (h : handle)
| allocate_command_buffers (pool : handle) (hs : list handle)
| begin_command_buffer (cmd : handle)
| end_command_buffer (cmd : handle)
| begin_render_pass (cmd framebuffer : handle) (extent : Z * Z)
| end_render_pass (cmd : handle)
| bind_pipeline (cmd pipeline : handle)
| bind_descriptor_sets (cmd layout : handle) (sets : list handle)
| bind_index_buffer (cmd buffer : handle) (offset index_type : Z)
| bind_vertex_buffers (cmd : handle) (buffers : list handle)
                      (offsets : list Z)
| draw_indexed (cmd : handle) (index_count : Z).

Record Vk := mkVk { next_handle : handle; calls : list VkCall }.

(** State and exceptions: the state reached when an exception is raised is
    kept, so that what happened before the exception can be observed. *)
Definition M (A : Type) : Type := Vk -> Vk * result A.

Definition ret {A} (a : A) : M A := fun v => (v, Ok a).

Definition raise {A} (e : exn) : M A := fun v => (v, Raise e).

Definition bind {A B} (c : M A) (k : A -> M B) : M B :=
  fun v =>
    match c v with
    | (v', Ok a) => k a v'
    | (v', Raise e) => (v', Raise e)
    end.

Definition lift {A} (r : result A) : M A := fun v => (v, r).

Notation "x <- c ;; k" := (bind c (fun x => k))
  (at level 61, c at next level, right associativity).
Notation "c ;;; k" := (bind c (fun _ => k))
  (at level 61, right associativity).

(** A call that returns nothing. *)
Definition call (c : VkCall) : M unit :=
  fun v => (mkVk (next_handle v) (calls v ++ [c]), Ok tt).

(** A call that creates one native object. *)
Definition create (c : handle -> VkCall) : M handle :=
  fun v =>
    let h := next_handle v in
    (mkVk (S h) (calls v ++ [c h]), Ok h).

(** A call that creates [n] native objects at once. *)
Definition create_many (n : nat) (c : list handle -> VkCall)
  : M (list handle) :=
  fun v =>
    let hs := seq (next_handle v) n in
    (mkVk (next_handle v + n) (calls v ++ [c hs]), Ok hs).

(** [for x in l: body(x)]. *)
Fixpoint for_each {A} (l : list A) (body : A -> M unit) : M unit :=
  match l with
  | [] => ret tt
  | x :: l' => body x ;;; for_each l' body
  end.

(** [for x in l: acc = body(acc, x)]: a loop that updates local
    variables. *)
Fixpoint for_fold {A S} (l : list A) (body : S -> A -> M S) (s : S) : M S :=
  match l with
  | [] => ret s
  | x :: l' => s' <- body s x ;; for_fold l' body s'
  end.

(** The same loop when the body has no native effect. *)
Fixpoint fold_result {A S} (l : list A) (body : S -> A -> result S) (s : S)
  : result S :=
  match l with
  | [] => Ok s
  | x :: l' =>
      match body s x with
      | Ok s' => fold_result l' body s'
      | Raise e => Raise e
      end
  end.

(* ===================================================================== *)
(** ** data_shader.py                                                    *)
(* ===================================================================== *)

Local Open Scope Z_scope.

(** *** ctypes: arrays of [c_float] and packed structures *)

(** The only ctypes the module builds are arrays [c_float * n]. *)
Inductive CType : Type :=
| c_float_array (n : Z).

(** [c_float * n], on a 64-bit CPython: the length is first converted to
    an index-sized integer ([OverflowError] when it does not fit a
    [Py_ssize_t]); a negative length raises [ValueError]; an array whose
    size in bytes, 4 per element, does not fit a [Py_ssize_t] raises
    [OverflowError]. *)
Definition c_float_times (n : Z) : result CType :=
  if (n <? - PY_SSIZE_T_MAX - 1) || (PY_SSIZE_T_MAX <? n)
  then Raise OverflowError
  else if n <? 0 then Raise ValueError
  else if PY_SSIZE_T_MAX / 4 <? n then Raise OverflowError
  else Ok (c_float_array n).

Definition sizeof_ctype (t : CType) : Z :=
  match t with c_float_array n => 4 * n end.

(** [type(name, (Structure,), {'_pack_': 16, '_fields_': args, ...})]. *)
Record Struct := mkStruct
  { struct_name : string; struct_pack : Z;
    struct_fields : list (string * CType) }.

(** [sizeof] of a structure whose fields are arrays of [c_float]: every
    field has the alignment of [c_float], 4 bytes; [_pack_] only caps the
    alignment of a field (at [min 4 16 = 4] here), it never raises it, so
    the fields follow each other without padding and the size is the sum of
    the sizes of the fields. *)
Definition sizeof (s : Struct) : Z :=
  Py.sum (map (fun f => sizeof_ctype (snd f)) (struct_fields s)).

(** The creation of the structure type. The size is accumulated in a
    [Py_ssize_t] without a check: a structure of more than
    [PY_SSIZE_T_MAX] bytes kills the interpreter (CPython 3.11, 64-bit). *)
Definition Structure (name : string) (pack : Z)
           (fields : list (string * CType)) : result Struct :=
  let struct := mkStruct name pack fields in
  if PY_SSIZE_T_MAX <? sizeof struct then Raise SegmentationFault
  else Ok struct.

(** *** The uniform member types *)

Inductive UniformMemberType : Type :=
| FLOAT_MAT2
| FLOAT_MAT3
| FLOAT_MAT4.

(** [UniformMemberType(value)]: the enumeration lookup by value raises
    [ValueError] when no member has this value. *)
Definition UniformMemberType_of_value (value : Z) : result UniformMemberType :=
  if value =? 0 then Ok FLOAT_MAT2
  else if value =? 1 then Ok FLOAT_MAT3
  else if value =? 2 then Ok FLOAT_MAT4
  else Raise ValueError.

(** [uniform_member_as_ctype(value, count1)]. The enumeration lookup comes
    first, so a value that is no member raises whatever the count (the
    final [else: raise ValueError] of the source is never reached); the
    array [t*(count1*count2)] raises as [c_float_times] does; the
    [lru_cache] around the function does not change what it returns. *)
Definition uniform_member_as_ctype (value count1 : Z) : result CType :=
  match UniformMemberType_of_value value with
  | Raise e => Raise e
  | Ok mt =>
      let count2 :=
        match mt with
        | FLOAT_MAT2 => 4
        | FLOAT_MAT3 => 9
        | FLOAT_MAT4 => 16
        end in
      c_float_times (count1 * count2)
  end.


(** *** The shader description and its reflection mapping *)

Record Field := mkField
  { field_name : string; field_type : Z; field_count : Z }.

Record Uniform := mkUniform
  { uniform_name : string; uniform_set : Z; uniform_binding : Z;
    uniform_type : Z; uniform_count : Z; uniform_stage : Z;
    uniform_fields : list Field }.

Record BindingDecl := mkBindingDecl { binding_id : Z; binding_stride : Z }.

Record AttributeDecl := mkAttributeDecl
  { attr_name : string; attr_location : Z; attr_binding : Z;
    attr_format : Z; attr_offset : option Z }.

Record Mapping := mkMapping
  { bindings : list BindingDecl;
    attributes : list AttributeDecl;
    uniforms : list Uniform }.

Record Shader := mkShader
  { vert : list Z; frag : list Z; mapping : Mapping }.

(** *** The compiled shader *)

Record WriteSetTemplate := mkWst
  { wst_descriptor_type : Z; wst_range : Z; wst_binding : Z }.

Record DescriptorSetLayout := mkDescriptorSetLayout
  { set_layout : handle;
    struct_map : list (string * Struct);
    pool_size_counts : list (Z * Z);
    write_set_templates : list WriteSetTemplate;
    struct_map_size_bytes : Z }.

(** [DescriptorSetLayout.__init__]. *)
Definition DescriptorSetLayout_init (set_layout : handle)
           (struct_map : list (string * Struct))
           (pool_size_counts : list (Z * Z))
           (write_set_templates : list WriteSetTemplate)
  : DescriptorSetLayout :=
  mkDescriptorSetLayout set_layout struct_map pool_size_counts
    write_set_templates
    (Py.sum (map sizeof (dict_values struct_map))).

(** [descriptor_set_layouts] stays [None] when the shader has no uniform;
    [has_engine] is cleared by [del self.engine]. *)
Record DataShader := mkDataShader
  { has_engine : bool;
    modules : list handle;
    stage_infos : list StageInfo;
    vertex_input_state : VertexInputState;
    ordered_attribute_names : list string;
    descriptor_set_layouts : option (list DescriptorSetLayout);
    pipeline_layout : handle }.

(** [DataShader._compile_shader]. *)
Definition _compile_shader (shader : Shader)
  : M (list handle * list StageInfo) :=
  let modules_src :=
    [ (vk.SHADER_STAGE_VERTEX_BIT, vert shader);
      (vk.SHADER_STAGE_FRAGMENT_BIT, frag shader) ] in
  for_fold modules_src
    (fun (acc : list handle * list StageInfo) (src : Z * list Z) =>
       let '(modules, stage_infos) := acc in
       let '(stage, code) := src in
       module <- create (create_shader_module code) ;;
       ret (modules ++ [module], stage_infos ++ [mkStageInfo stage module]))
    ([], []).

(** [DataShader._setup_vertex_state]. *)
Definition _setup_vertex_state (shader : Shader)
  : VertexInputState * list string :=
  let m := mapping shader in
  let binding_descriptions :=
    map (fun b => mkVertexBinding (binding_id b) (binding_stride b))
        (bindings m) in
  let attribute_descriptions :=
    map (fun a =>
           mkVertexAttribute (attr_location a) (attr_binding a)
             (attr_format a)
             (match attr_offset a with Some o => o | None => 0 end))
        (attributes m) in
  let names := map attr_name (Py.sorted attr_binding (attributes m)) in
  (mkVertexInputState binding_descriptions attribute_descriptions, names).

(** [DataShader._group_uniforms_by_sets]: a dict from the set index to the
    uniforms of that set, in first-encounter order of the sets. *)
Definition _group_uniforms_by_sets (shader : Shader)
  : list (Z * list Uniform) :=
  fold_left
    (fun uniforms_by_dset uniform =>
       dict_upsert Z.eqb (uniform_set uniform) [uniform]
         (fun l => l ++ [uniform]) uniforms_by_dset)
    (uniforms (mapping shader)) [].

(** The [_fields_] of the structure of one uniform:
    [for field in uniform["fields"]: args.append(...)]. *)
Definition struct_args (fields : list Field)
  : result (list (string * CType)) :=
  fold_result fields
    (fun args field =>
       match uniform_member_as_ctype (field_type field) (field_count field)
       with
       | Ok field_ctype => Ok (args ++ [(field_name field, field_ctype)])
       | Raise e => Raise e
       end)
    [].

(** The local variables of the loop over the uniforms of one set. *)
Record SetLocals := mkSetLocals
  { counts : list (Z * Z);
    structs : list (string * Struct);
    layout_bindings : list LayoutBinding;
    wst : list WriteSetTemplate }.

(** The body of [for uniform in uniforms] in
    [_setup_descriptor_layouts]. *)
Definition uniform_body (acc : SetLocals) (uniform : Uniform)
  : result SetLocals :=
  let dtype := uniform_type uniform in
  let dcount := uniform_count uniform in
  let ubinding := uniform_binding uniform in
  let counts' :=
    dict_upsert Z.eqb dtype dcount (fun c => c + dcount) (counts acc) in
  match struct_args (uniform_fields uniform) with
  | Raise e => Raise e
  | Ok args =>
      match Structure (uniform_name uniform) 16 args with
      | Raise e => Raise e
      | Ok struct =>
          let structs' :=
            dict_upsert String.eqb (uniform_name uniform) struct
              (fun _ => struct) (structs acc) in
          let binding :=
            mkLayoutBinding ubinding dtype dcount (uniform_stage uniform) in
          Ok (mkSetLocals counts' structs'
                (layout_bindings acc ++ [binding])
                (wst acc ++ [mkWst dtype (sizeof struct) ubinding]))
      end
  end.

(** The body of [for dset, uniforms in self._group_uniforms_by_sets()]. *)
Definition set_body (layouts : list DescriptorSetLayout)
           (group : Z * list Uniform) : M (list DescriptorSetLayout) :=
  locals <- lift (fold_result (snd group) uniform_body
                    (mkSetLocals [] [] [] [])) ;;
  h <- create (create_descriptor_set_layout (layout_bindings locals)) ;;
  ret (layouts ++
       [DescriptorSetLayout_init h (structs locals) (counts locals)
          (wst locals)]).

(** [DataShader._setup_descriptor_layouts]: the result is the new value of
    [self.descriptor_set_layouts]. *)
Definition _setup_descriptor_layouts (shader : Shader)
  : M (option (list DescriptorSetLayout)) :=
  if Nat.eqb (List.length (uniforms (mapping shader))) 0 then ret None
  else
    layouts <- for_fold (_group_uniforms_by_sets shader) set_body [] ;;
    ret (Some layouts).

(** [DataShader._setup_pipeline_layout]: [self.descriptor_set_layouts or
    ()] is the empty tuple for [None] (and for an empty list). *)
Definition _setup_pipeline_layout
           (descriptor_set_layouts : option (list DescriptorSetLayout))
  : M handle :=
  let set_layouts :=
    match descriptor_set_layouts with
    | Some l => l
    | None => []
    end in
  create (create_pipeline_layout (map set_layout set_layouts)).

(** [DataShader.__init__]. *)
Definition DataShader_init (shader : Shader) : M DataShader :=
  ms <- _compile_shader shader ;;
  let '(vis, names) := _setup_vertex_state shader in
  layouts <- _setup_descriptor_layouts shader ;;
  pl <- _setup_pipeline_layout layouts ;;
  ret (mkDataShader true (fst ms) (snd ms) vis names layouts pl).

(** [DataShader.free]: reading [self.ctx] after [del self.engine] raises
    [AttributeError]; iterating [None] raises [TypeError]. *)
Definition DataShader_free (self : DataShader) : M DataShader :=
  if negb (has_engine self) then raise AttributeError
  else
    match descriptor_set_layouts self with
    | None => raise TypeError
    | Some layouts =>
        for_each layouts
          (fun dset_layout =>
             call (destroy_descriptor_set_layout (set_layout dset_layout))) ;;;
        call (destroy_pipeline_layout (pipeline_layout self)) ;;;
        for_each (modules self) (fun m => call (destroy_shader_module m)) ;;;
        ret (mkDataShader false (modules self) (stage_infos self)
               (vertex_input_state self) (ordered_attribute_names self)
               (descriptor_set_layouts self) (pipeline_layout self))
    end.

(** A block of one 4x4 matrix and a block of one 3x3 matrix. *)
Definition mat4_uniform (name : string) (set binding : Z) : Uniform :=
  mkUniform name set binding vk.DESCRIPTOR_TYPE_UNIFORM_BUFFER 1
    vk.SHADER_STAGE_VERTEX_BIT [mkField "m" 2 1].

Definition mat3_uniform (name : string) (set binding : Z) : Uniform :=
  mkUniform name set binding vk.DESCRIPTOR_TYPE_UNIFORM_BUFFER 1
    vk.SHADER_STAGE_VERTEX_BIT [mkField "m" 1 1].

Definition simple_shader (us : list Uniform) : Shader :=
  mkShader [7] [8]
    (mkMapping [mkBindingDecl 0 12]
       [mkAttributeDecl "pos" 0 0 106 None] us).

Definition vk0 : Vk := mkVk 0%nat [].

(* ===================================================================== *)
(** ** data_scene.py                                                     *)
(* ===================================================================== *)

(** *** The scene description and the engine *)

(** A scene object refers to a shader and to a mesh by index. *)
Record GameObject := mkGameObject
  { obj_shader : option Z; obj_mesh : option Z }.

(** A mesh is a Python object compared by identity ([id(mesh)]): it is
    represented by its address. [scene.meshes] may hold the same mesh
    several times, and may hold [None]. *)
Record Scene := mkScene
  { scene_shaders : list Shader;
    scene_meshes : list (option nat);
    scene_objects : list GameObject }.

(** What [DataScene] reads from the engine. *)
Record Engine := mkEngine
  { swapchain_extent : Z * Z;
    render_pass : handle;
    framebuffers : list handle;
    setup_command_buffer : handle;
    render_queue_family_index : Z }.

(** Modelled from the spec: [DataGameObject] (data_game_object.py is not
    among the sources). It references a shader index, a mesh index, a
    pipeline index, descriptor-set handles and write-sets; the pipeline and
    descriptor fields are backfilled during compilation, and [record] tests
    each of them against [None]. *)
Record DataGameObject := mkDataGameObject
  { shader : option Z;
    mesh : option Z;
    pipeline : option Z;
    descriptor_sets : option (list handle);
    write_sets : option (list WriteSet) }.

Definition DataGameObject_init (obj : GameObject) : DataGameObject :=
  mkDataGameObject (obj_shader obj) (obj_mesh obj) None None None.

Definition set_pipeline (p : option Z) (o : DataGameObject) :=
  mkDataGameObject (shader o) (mesh o) p (descriptor_sets o) (write_sets o).

Definition set_descriptor_sets (ds : list handle) (o : DataGameObject) :=
  mkDataGameObject (shader o) (mesh o) (pipeline o) (Some ds) (write_sets o).

Definition set_write_sets (ws : list WriteSet) (o : DataGameObject) :=
  mkDataGameObject (shader o) (mesh o) (pipeline o) (descriptor_sets o)
    (Some ws).

(** Modelled from the spec: [DataMesh] (data_mesh.py is not among the
    sources) keeps the mesh it was built from and the base offset assigned
    to it in the shared buffer. *)
Record DataMesh := mkDataMesh { dm_mesh : nat; base_offset : Z }.

(** A shader group: the shader index and the objects of the group. The
    objects are references into [DataScene.objects]: positions in that
    list. *)
Definition Group : Type := option Z * list nat.

(** The attributes of a [DataScene]. Attributes that are [None] until a
    setup step assigns them hold a placeholder here; [__init__] runs the
    steps in an order in which none is read before it is assigned. *)
Record DataScene := mkDataScene
  { engine : Engine;
    scene : Scene;
    command_pool : handle;
    render_commands : list handle;
    shaders : list DataShader;
    objects : list DataGameObject;
    pipelines : list handle;
    pipeline_cache : handle;
    descriptor_pool : handle;
    shader_objects : option (list Group);
    shader_objects_sorted : bool;
    meshes_alloc : Alloc;
    meshes_buffer : handle;
    meshes : list DataMesh;
    uniforms_alloc : Alloc;
    uniforms_buffer : handle }.

Definition DataScene_new (e : Engine) (s : Scene) : DataScene :=
  mkDataScene e s 0%nat [] [] [] [] 0%nat 0%nat None false
    (mkAlloc 0%nat 0) 0%nat [] (mkAlloc 0%nat 0) 0%nat.

Definition set_shaders (x : list DataShader) (d : DataScene) :=
  mkDataScene (engine d) (scene d) (command_pool d) (render_commands d)
    x (objects d) (pipelines d) (pipeline_cache d) (descriptor_pool d)
    (shader_objects d) (shader_objects_sorted d) (meshes_alloc d)
    (meshes_buffer d) (meshes d) (uniforms_alloc d) (uniforms_buffer d).

Definition set_objects (x : list DataGameObject) (d : DataScene) :=
  mkDataScene (engine d) (scene d) (command_pool d) (render_commands d)
    (shaders d) x (pipelines d) (pipeline_cache d) (descriptor_pool d)
    (shader_objects d) (shader_objects_sorted d) (meshes_alloc d)
    (meshes_buffer d) (meshes d) (uniforms_alloc d) (uniforms_buffer d).

Definition set_meshes (a : Alloc) (b : handle) (x : list DataMesh)
           (d : DataScene) :=
  mkDataScene (engine d) (scene d) (command_pool d) (render_commands d)
    (shaders d) (objects d) (pipelines d) (pipeline_cache d)
    (descriptor_pool d) (shader_objects d) (shader_objects_sorted d)
    a b x (uniforms_alloc d) (uniforms_buffer d).

Definition set_pipelines (c : handle) (x : list handle) (d : DataScene) :=
  mkDataScene (engine d) (scene d) (command_pool d) (render_commands d)
    (shaders d) (objects d) x c (descriptor_pool d)
    (shader_objects d) (shader_objects_sorted d) (meshes_alloc d)
    (meshes_buffer d) (meshes d) (uniforms_alloc d) (uniforms_buffer d).

Definition set_descriptor_pool (x : handle) (d : DataScene) :=
  mkDataScene (engine d) (scene d) (command_pool d) (render_commands d)
    (shaders d) (objects d) (pipelines d) (pipeline_cache d) x
    (shader_objects d) (shader_objects_sorted d) (meshes_alloc d)
    (meshes_buffer d) (meshes d) (uniforms_alloc d) (uniforms_buffer d).

Definition set_shader_objects (x : list Group) (d : DataScene) :=
  mkDataScene (engine d) (scene d) (command_pool d) (render_commands d)
    (shaders d) (objects d) (pipelines d) (pipeline_cache d)
    (descriptor_pool d) (Some x) true (meshes_alloc d)
    (meshes_buffer d) (meshes d) (uniforms_alloc d) (uniforms_buffer d).

Definition set_uniforms (a : Alloc) (b : handle) (d : DataScene) :=
  mkDataScene (engine d) (scene d) (command_pool d) (render_commands d)
    (shaders d) (objects d) (pipelines d) (pipeline_cache d)
    (descriptor_pool d) (shader_objects d) (shader_objects_sorted d)
    (meshes_alloc d) (meshes_buffer d) (meshes d) a b.

Definition set_render_commands (p : handle) (x : list handle)
           (d : DataScene) :=
  mkDataScene (engine d) (scene d) p x
    (shaders d) (objects d) (pipelines d) (pipeline_cache d)
    (descriptor_pool d) (shader_objects d) (shader_objects_sorted d)
    (meshes_alloc d) (meshes_buffer d) (meshes d) (uniforms_alloc d)
    (uniforms_buffer d).

Definition option_Z_eq_dec (x y : option Z) : {x = y} + {x <> y}.
Proof. decide equality. apply Z.eq_dec. Defined.

Definition option_Z_eqb (x y : option Z) : bool :=
  if option_Z_eq_dec x y then true else false.

(** Modelled from the spec: the memory manager (memory_manager.py is not
    among the sources), [allocate(resource, kind, memoryFlags) ->
    Allocation{offset,size}]. The allocation made for a buffer has the size
    the buffer was created with, which is read back from the log of
    calls. *)
Definition buffer_size (log : list VkCall) (buffer : handle) : Z :=
  fold_left
    (fun found c =>
       match c with
       | create_buffer size _ h => if Nat.eqb h buffer then size else found
       | _ => found
       end)
    log 0.

Definition mem_alloc_buffer (resource : handle) (flags : Z) : M Alloc :=
  fun v =>
    let a := mkAlloc (next_handle v) (buffer_size (calls v) resource) in
    (mkVk (S (next_handle v)) (calls v ++ [mem_alloc resource flags a]),
     Ok a).

Definition enumerate {A} (l : list A) : list (nat * A) :=
  combine (seq 0 (List.length l)) l.

Definition is_some {A} (o : option A) : bool :=
  match o with Some _ => true | None => false end.

Section SceneCompiler.

(** What the module uses of the classes [Mesh] and [DataMesh], which are
    not among the sources: [mesh.size()] of the mesh at an address, and the
    attributes of a [DataMesh] read by [record]. *)
Variable mesh_size : nat -> Z.
Variable indices_offset : DataMesh -> Z.
Variable indices_type : DataMesh -> Z.
Variable indices_count : DataMesh -> Z.
Variable attribute_offsets_len : DataMesh -> nat.
Variable attribute_offsets_for_shader :
  DataMesh -> DataShader -> result (list Z).

(** *** [_setup_shaders] *)

Definition _setup_shaders (self : DataScene) : M DataScene :=
  compiled <- for_fold (scene_shaders (scene self))
                (fun acc sh => d <- DataShader_init sh ;; ret (acc ++ [d]))
                [] ;;
  ret (set_shaders compiled self).

(** *** [_setup_objects] *)

Record PackLocals := mkPackLocals
  { staging_mesh_offset : Z;
    mesh_cache_lookup : list nat;
    data_meshes : list DataMesh;
    data_objects : list DataGameObject }.

(** The body of [for obj in scene.objects]. *)
Definition pack_body (scene_meshes : list (option nat)) (acc : PackLocals)
           (obj : GameObject) : result PackLocals :=
  match getitem_opt scene_meshes (obj_mesh obj) with
  | Raise e => Raise e
  | Ok m =>
      let acc' :=
        match m with
        | Some a =>
            if negb (existsb (Nat.eqb a) (mesh_cache_lookup acc)) then
              mkPackLocals
                (staging_mesh_offset acc + mesh_size a)
                (mesh_cache_lookup acc ++ [a])
                (data_meshes acc ++ [mkDataMesh a (staging_mesh_offset acc)])
                (data_objects acc)
            else acc
        | None => acc
        end in
      Ok (mkPackLocals (staging_mesh_offset acc') (mesh_cache_lookup acc')
            (data_meshes acc')
            (data_objects acc' ++ [DataGameObject_init obj]))
  end.

Definition pack_meshes (s : Scene) : result PackLocals :=
  fold_result (scene_objects s) (pack_body (scene_meshes s))
    (mkPackLocals 0 [] [] []).

Definition _setup_objects_staging (meshes_size : Z)
           (data_meshes : list DataMesh) : M (Alloc * handle) :=
  staging_buffer <-
    create (create_buffer meshes_size vk.BUFFER_USAGE_TRANSFER_SRC_BIT) ;;
  staging_alloc <-
    mem_alloc_buffer staging_buffer
      (Z.lor vk.MEMORY_PROPERTY_HOST_COHERENT_BIT
             vk.MEMORY_PROPERTY_HOST_VISIBLE_BIT) ;;
  for_each data_meshes
    (fun dm =>
       call (alloc_write_bytes staging_alloc (base_offset dm) (dm_mesh dm))) ;;;
  ret (staging_alloc, staging_buffer).

Definition _setup_objects_resources (self : DataScene)
           (staging_alloc : Alloc) (staging_buffer : handle)
  : M (Alloc * handle) :=
  let cmd := setup_command_buffer (engine self) in
  mesh_buffer <-
    create (create_buffer (alloc_size staging_alloc)
              (Z.lor (Z.lor vk.BUFFER_USAGE_INDEX_BUFFER_BIT
                            vk.BUFFER_USAGE_VERTEX_BUFFER_BIT)
                     vk.BUFFER_USAGE_TRANSFER_DST_BIT)) ;;
  mesh_alloc <-
    mem_alloc_buffer mesh_buffer vk.MEMORY_PROPERTY_DEVICE_LOCAL_BIT ;;
  call (begin_command_buffer cmd) ;;;
  call (copy_buffer cmd staging_buffer mesh_buffer
          (alloc_size staging_alloc)) ;;;
  call (end_command_buffer cmd) ;;;
  call (submit_setup_command true) ;;;
  ret (mesh_alloc, mesh_buffer).

Definition _setup_objects (self : DataScene) : M DataScene :=
  packed <- lift (pack_meshes (scene self)) ;;
  staging <- _setup_objects_staging (staging_mesh_offset packed)
               (data_meshes packed) ;;
  resources <- _setup_objects_resources self (fst staging) (snd staging) ;;
  call (destroy_buffer (snd staging)) ;;;
  call (mem_free_alloc (fst staging)) ;;;
  ret (set_objects (data_objects packed)
         (set_meshes (fst resources) (snd resources) (data_meshes packed)
            self)).

(** *** [_group_objects_by_shaders] *)

(** The body of [for obj in self.objects]; [ref] is the object itself. *)
Definition group_body (st : list Group * list (option Z))
           (ref_obj : nat * DataGameObject) : list Group * list (option Z) :=
  let '(groups, shaders_index) := st in
  let '(ref, obj) := ref_obj in
  if existsb (option_Z_eqb (shader obj)) shaders_index then
    let i := Py.index option_Z_eqb (shader obj) shaders_index in
    (update_at groups i (fun g => (fst g, snd g ++ [ref])), shaders_index)
  else
    (groups ++ [(shader obj, [ref])], shaders_index ++ [shader obj]).

Definition group_objects (objs : list DataGameObject) : list Group :=
  fst (fold_left group_body (enumerate objs) ([], [])).

(** Returns the groups and the scene with its memo set. When the flag is
    set the stored attribute is returned as it is; were it [None], the
    caller's [for] over it would raise [TypeError]. *)
Definition _group_objects_by_shaders (self : DataScene)
  : result (list Group * DataScene) :=
  if shader_objects_sorted self then
    match shader_objects self with
    | Some groups => Ok (groups, self)
    | None => Raise TypeError
    end
  else
    let groups := group_objects (objects self) in
    Ok (groups, set_shader_objects groups self).

(** *** [_setup_pipelines] *)

(** [for obj in objects: obj.pipeline = shader_index]. *)
Definition assign_pipeline (shader_index : option Z) (refs : list nat)
           (objs : list DataGameObject) : list DataGameObject :=
  fold_left (fun os ref => update_at os ref (set_pipeline shader_index))
    refs objs.

Definition pipeline_info (e : Engine) (sh : DataShader) : PipelineInfo :=
  mkPipelineInfo (stage_infos sh) (vertex_input_state sh)
    (swapchain_extent e) (pipeline_layout sh) (render_pass e).

(** The body of [for shader_index, objects in groups]. *)
Definition pipeline_body (e : Engine) (shs : list DataShader)
           (acc : list DataGameObject * list PipelineInfo) (g : Group)
  : result (list DataGameObject * list PipelineInfo) :=
  match getitem_opt shs (fst g) with
  | Raise ex => Raise ex
  | Ok sh =>
      Ok (assign_pipeline (fst g) (snd g) (fst acc),
          snd acc ++ [pipeline_info e sh])
  end.

Definition _setup_pipelines (self : DataScene) : M DataScene :=
  gs <- lift (_group_objects_by_shaders self) ;;
  let self := snd gs in
  acc <- lift (fold_result (fst gs)
                 (pipeline_body (engine self) (shaders self))
                 (objects self, [])) ;;
  cache <- create create_pipeline_cache ;;
  created <- create_many (List.length (snd acc))
               (create_graphics_pipelines (snd acc) cache) ;;
  ret (set_pipelines cache created (set_objects (fst acc) self)).

(** *** [_setup_descriptor_sets_pool] *)

Definition pool_body (shs : list DataShader) (acc : list (Z * Z) * Z)
           (g : Group) : result (list (Z * Z) * Z) :=
  match getitem_opt shs (fst g) with
  | Raise ex => Raise ex
  | Ok sh =>
      let object_count := Z.of_nat (List.length (snd g)) in
      match descriptor_set_layouts sh with
      | None => Ok acc
      | Some layouts =>
          Ok (fold_left
                (fun (a : list (Z * Z) * Z) dset_layout =>
                   (fold_left
                      (fun pool_sizes (tc : Z * Z) =>
                         dict_upsert Z.eqb (fst tc) (snd tc * object_count)
                           (fun c => c + snd tc * object_count) pool_sizes)
                      (pool_size_counts dset_layout) (fst a),
                    snd a + object_count))
                layouts acc)
      end
  end.

Definition _setup_descriptor_sets_pool (self : DataScene) : M DataScene :=
  gs <- lift (_group_objects_by_shaders self) ;;
  let self := snd gs in
  acc <- lift (fold_result (fst gs) (pool_body (shaders self)) ([], 0)) ;;
  pool <- create (create_descriptor_pool (snd acc) (fst acc)) ;;
  ret (set_descriptor_pool pool self).

(** *** [_setup_descriptor_sets] *)

(** [for i, obj in zip(range(0, len(set_layouts), objlen), objects):
       obj.descriptor_sets = descriptor_sets[i:i+objlen]]. *)
Definition assign_descriptor_sets (allocated : list handle) (objlen : nat)
           (pairs : list (nat * nat)) (objs : list DataGameObject)
  : list DataGameObject :=
  fold_left
    (fun os (p : nat * nat) =>
       update_at os (snd p)
         (set_descriptor_sets (slice allocated (fst p) (fst p + objlen))))
    pairs objs.

(** The body of [for shader_index, objects in groups]: the locals are the
    running [uniforms_buffer_size] and the object store. *)
Definition descriptor_sets_body (pool : handle) (shs : list DataShader)
           (acc : Z * list DataGameObject) (g : Group)
  : M (Z * list DataGameObject) :=
  sh <- lift (getitem_opt shs (fst g)) ;;
  let objlen := List.length (snd g) in
  match descriptor_set_layouts sh with
  | None => raise TypeError
  | Some layouts =>
      let uniforms_buffer_size :=
        fst acc
        + Py.sum (map struct_map_size_bytes layouts) * Z.of_nat objlen in
      let set_layouts := repeat_list (map set_layout layouts) objlen in
      allocated <-
        create_many (List.length set_layouts)
          (allocate_descriptor_sets pool set_layouts) ;;
      starts <- lift (range_step (List.length set_layouts) objlen) ;;
      ret (uniforms_buffer_size,
           assign_descriptor_sets allocated objlen (combine starts (snd g))
             (snd acc))
  end.

Definition descriptor_sets_loop (self : DataScene) (groups : list Group)
  : M (Z * list DataGameObject) :=
  for_fold groups
    (descriptor_sets_body (descriptor_pool self) (shaders self))
    (0, objects self).

Definition _setup_descriptor_sets (self : DataScene) : M DataScene :=
  gs <- lift (_group_objects_by_shaders self) ;;
  let self := snd gs in
  acc <- descriptor_sets_loop self (fst gs) ;;
  buffer <-
    create (create_buffer (fst acc) vk.BUFFER_USAGE_UNIFORM_BUFFER_BIT) ;;
  a <- mem_alloc_buffer buffer
         (Z.lor vk.MEMORY_PROPERTY_HOST_VISIBLE_BIT
                vk.MEMORY_PROPERTY_HOST_COHERENT_BIT) ;;
  call (alloc_memset a 0 (alloc_size a)) ;;;
  ret (set_uniforms a buffer (set_objects (snd acc) self)).

(** *** [_setup_descriptor_write_sets] *)

(** [generate_write_set]: returns the write set and the new value of the
    non-local [uniform_offset]. *)
Definition generate_write_set (uniform_buffer : handle) (uniform_offset : Z)
           (t : WriteSetTemplate) (descriptor_set : handle)
  : result (WriteSet * Z) :=
  if wst_descriptor_type t =? vk.DESCRIPTOR_TYPE_UNIFORM_BUFFER then
    Ok (mkWriteSet descriptor_set (wst_binding t) (wst_descriptor_type t)
          (mkBufferInfo uniform_buffer uniform_offset (wst_range t)),
        uniform_offset + wst_range t)
  else Raise ValueError.

(** [tuple(generate_write_set(wst, descriptor_set) for wst in ...)]. *)
Definition generate_write_sets (uniform_buffer : handle)
           (uniform_offset : Z) (templates : list WriteSetTemplate)
           (descriptor_set : handle) : result (list WriteSet * Z) :=
  fold_result templates
    (fun (a : list WriteSet * Z) t =>
       match generate_write_set uniform_buffer (snd a) t descriptor_set with
       | Ok (w, off) => Ok (fst a ++ [w], off)
       | Raise ex => Raise ex
       end)
    ([], uniform_offset).

(** The body of [for descriptor_set, descriptor_layout in zip(...)]; the
    locals are [uniform_offset] and the object store. *)
Definition write_sets_pair (uniform_buffer : handle) (ref : nat)
           (acc : Z * list DataGameObject)
           (p : handle * DescriptorSetLayout)
  : M (Z * list DataGameObject) :=
  r <- lift (generate_write_sets uniform_buffer (fst acc)
               (write_set_templates (snd p)) (fst p)) ;;
  call (update_descriptor_sets (fst r)) ;;;
  ret (snd r, update_at (snd acc) ref (set_write_sets (fst r))).

(** The body of [for obj in objects]: zipping with [None] raises
    [TypeError]. A reference always designates an object of the store. *)
Definition write_sets_object (uniform_buffer : handle) (sh : DataShader)
           (acc : Z * list DataGameObject) (ref : nat)
  : M (Z * list DataGameObject) :=
  match nth_error (snd acc) ref with
  | None => raise IndexError
  | Some obj =>
      match descriptor_sets obj, descriptor_set_layouts sh with
      | Some dsets, Some layouts =>
          for_fold (combine dsets layouts)
            (write_sets_pair uniform_buffer ref) acc
      | _, _ => raise TypeError
      end
  end.

(** The body of [for shader_index, objects in groups]. *)
Definition write_sets_body (uniform_buffer : handle)
           (shs : list DataShader) (acc : Z * list DataGameObject)
           (g : Group) : M (Z * list DataGameObject) :=
  sh <- lift (getitem_opt shs (fst g)) ;;
  for_fold (snd g) (write_sets_object uniform_buffer sh) acc.

(** The whole loop; its first result is the final [uniform_offset]. *)
Definition write_sets_loop (self : DataScene) (groups : list Group)
  : M (Z * list DataGameObject) :=
  for_fold groups (write_sets_body (uniforms_buffer self) (shaders self))
    (0, objects self).

Definition _setup_descriptor_write_sets (self : DataScene) : M DataScene :=
  gs <- lift (_group_objects_by_shaders self) ;;
  let self := snd gs in
  acc <- write_sets_loop self (fst gs) ;;
  ret (set_objects (snd acc) self).

(** *** [_setup_render_commands] and [__init__] *)

Definition _setup_render_commands (self : DataScene) : M DataScene :=
  pool <-
    create (create_command_pool (render_queue_family_index (engine self))) ;;
  cmd_draw <-
    create_many (List.length (framebuffers (engine self)))
      (allocate_command_buffers pool) ;;
  ret (set_render_commands pool cmd_draw self).

(** [__init__] up to and including [_setup_descriptor_sets]. *)
Definition DataScene_init_resources (e : Engine) (s : Scene) : M DataScene :=
  self <- _setup_shaders (DataScene_new e s) ;;
  self <- _setup_objects self ;;
  self <- _setup_pipelines self ;;
  self <- _setup_descriptor_sets_pool self ;;
  _setup_descriptor_sets self.

(** [__init__]; [_setup_render_cache] only fills the cached
    render-pass-begin template, which [record] passes to its calls. *)
Definition DataScene_init (e : Engine) (s : Scene) : M DataScene :=
  self <- DataScene_init_resources e s ;;
  self <- _setup_descriptor_write_sets self ;;
  _setup_render_commands self.

(** The value of [uniform_offset] at the end of
    [_setup_descriptor_write_sets]. *)
Definition final_uniform_offset (self : DataScene) : M Z :=
  gs <- lift (_group_objects_by_shaders self) ;;
  acc <- write_sets_loop (snd gs) (fst gs) ;;
  ret (fst acc).

(** *** [record] *)

Record RecordLocals := mkRecordLocals
  { pipeline_index : option Z;
    current_shader_index : option Z;
    current_shader : option DataShader }.

(** The four [if] statements of the body of [for obj in self.objects]. *)

(** [if obj.shader is not None and current_shader_index != obj.shader]. *)
Definition select_shader (self : DataScene) (st : RecordLocals)
           (obj : DataGameObject) : M RecordLocals :=
  if is_some (shader obj)
     && negb (option_Z_eqb (current_shader_index st) (shader obj))
  then
    sh <- lift (getitem_opt (shaders self) (shader obj)) ;;
    ret (mkRecordLocals (pipeline_index st) (shader obj) (Some sh))
  else ret st.

(** [if obj.pipeline is not None and pipeline_index != obj.pipeline]. *)
Definition select_pipeline (self : DataScene) (cmd : handle)
           (st : RecordLocals) (obj : DataGameObject) : M RecordLocals :=
  if is_some (pipeline obj)
     && negb (option_Z_eqb (pipeline_index st) (pipeline obj))
  then
    p <- lift (getitem_opt (pipelines self) (pipeline obj)) ;;
    call (bind_pipeline cmd p) ;;;
    ret (mkRecordLocals (pipeline obj) (current_shader_index st)
           (current_shader st))
  else ret st.

(** [if obj.descriptor_sets is not None]: reading [pipeline_layout] of
    [None] raises [AttributeError]. *)
Definition bind_sets (cmd : handle) (st : RecordLocals)
           (obj : DataGameObject) : M unit :=
  match descriptor_sets obj with
  | Some sets =>
      match current_shader st with
      | Some sh => call (bind_descriptor_sets cmd (pipeline_layout sh) sets)
      | None => raise AttributeError
      end
  | None => ret tt
  end.

(** [if obj.mesh is not None]. *)
Definition draw_mesh (self : DataScene) (cmd : handle)
           (obj : DataGameObject) : M unit :=
  match mesh obj with
  | Some _ =>
      m <- lift (getitem_opt (meshes self) (mesh obj)) ;;
      sh <- lift (getitem_opt (shaders self) (shader obj)) ;;
      let attributes_buffer :=
        repeat (meshes_buffer self) (attribute_offsets_len m) in
      attribute_offsets <- lift (attribute_offsets_for_shader m sh) ;;
      call (bind_index_buffer cmd (meshes_buffer self) (indices_offset m)
              (indices_type m)) ;;;
      call (bind_vertex_buffers cmd attributes_buffer attribute_offsets) ;;;
      call (draw_indexed cmd (indices_count m))
  | None => ret tt
  end.

(** The body of [for obj in self.objects]. *)
Definition record_body (self : DataScene) (cmd : handle)
           (st : RecordLocals) (obj : DataGameObject) : M RecordLocals :=
  st1 <- select_shader self st obj ;;
  st2 <- select_pipeline self cmd st1 obj ;;
  bind_sets cmd st2 obj ;;;
  draw_mesh self cmd obj ;;;
  ret st2.

Definition record (self : DataScene) (framebuffer_index : Z) : M unit :=
  cmd <- lift (getitem (render_commands self) framebuffer_index) ;;
  framebuffer <-
    lift (getitem (framebuffers (engine self)) framebuffer_index) ;;
  call (begin_command_buffer cmd) ;;;
  call (begin_render_pass cmd framebuffer
          (swapchain_extent (engine self))) ;;;
  for_fold (objects self) (record_body self cmd)
    (mkRecordLocals None None None) ;;;
  call (end_render_pass cmd) ;;;
  call (end_command_buffer cmd).

End SceneCompiler.

(* ===================================================================== *)
(** ** Observations on the call log and worked examples                  *)
(* ===================================================================== *)

(** Handles destroyed by a sequence of calls, in order. *)
Definition destroyed (c : VkCall) : list handle :=
  match c with
  | destroy_descriptor_set_layout h => [h]
  | destroy_pipeline_layout h => [h]
  | destroy_shader_module h => [h]
  | destroy_buffer h => [h]
  | _ => []
  end.

Definition destroyed_handles (log : list VkCall) : list handle :=
  flat_map destroyed log.

(** Handles drawn between two states, in acquisition order. *)
Definition acquired (v v' : Vk) : list handle :=
  seq (next_handle v) (next_handle v' - next_handle v).

(** Handles destroyed between two states, in order. *)
Definition released (w w' : Vk) : list handle :=
  destroyed_handles (skipn (List.length (calls w)) (calls w')).

Definition one_block_shader : Shader := simple_shader [mat4_uniform "a" 0 0].

(** The state and the compiled shader after compiling [one_block_shader]
    in the initial state. *)
Definition one_block_vk : Vk :=
  Eval vm_compute in fst (DataShader_init one_block_shader vk0).

Definition one_block_compiled : DataShader :=
  Eval vm_compute in
    match snd (DataShader_init one_block_shader vk0) with
    | Ok ds => ds
    | Raise _ => mkDataShader false [] [] (mkVertexInputState [] []) [] None 0%nat
    end.


(** The claim of a release in reverse-acquisition order, as a statement
    about every compiled shader that is freed. *)
Definition releases_in_reverse_acquisition_order : Prop :=
  forall (sh : Shader) (v v' w w' : Vk) (ds ds' : DataShader),
    DataShader_init sh v = (v', Ok ds) ->
    DataShader_free ds w = (w', Ok ds') ->
    released w w' = rev (acquired v v').







(** The pipeline create-info from which a pipeline handle was created. *)
Fixpoint info_of_handle (infos : list PipelineInfo) (hs : list handle)
         (h : handle) : option PipelineInfo :=
  match infos, hs with
  | i :: infos', h' :: hs' =>
      if Nat.eqb h h' then Some i else info_of_handle infos' hs' h
  | _, _ => None
  end.

Fixpoint pipeline_created_from (log : list VkCall) (h : handle)
  : option PipelineInfo :=
  match log with
  | [] => None
  | create_graphics_pipelines infos _ hs :: log' =>
      match info_of_handle infos hs h with
      | Some i => Some i
      | None => pipeline_created_from log' h
      end
  | _ :: log' => pipeline_created_from log' h
  end.

(** Worked scenes. Every mesh has 100 bytes. *)
Definition engine0 : Engine :=
  mkEngine (800, 600) 1000%nat [2000%nat; 2001%nat] 3000%nat 0.

Definition mesh100 (a : nat) : Z := 100.

(** Two objects share one shader with a single 4x4-matrix uniform and one
    mesh. *)
Definition shared_shader_scene : Scene :=
  mkScene [one_block_shader] [Some 5%nat]
    [mkGameObject (Some 0) (Some 0); mkGameObject (Some 0) (Some 0)].

(** One object whose shader declares two descriptor sets, each with one
    4x4-matrix uniform. *)
Definition two_set_shader : Shader :=
  simple_shader [mat4_uniform "a" 0 0; mat4_uniform "b" 1 0].

Definition two_set_scene : Scene :=
  mkScene [two_set_shader] [Some 5%nat] [mkGameObject (Some 0) (Some 0)].

(** Two shaders; the first object uses the second shader. *)
Definition other_shader : Shader :=
  mkShader [9] [10]
    (mkMapping [mkBindingDecl 0 24]
       [mkAttributeDecl "pos" 0 0 106 None;
        mkAttributeDecl "normal" 1 0 106 (Some 12)]
       [mat4_uniform "a" 0 0]).

Definition swapped_scene : Scene :=
  mkScene [one_block_shader; other_shader] [Some 5%nat]
    [mkGameObject (Some 1) (Some 0); mkGameObject (Some 0) (Some 0)].

(** A shader with a single block of one 3x3 matrix. *)
Definition mat3_shader : Shader := simple_shader [mat3_uniform "n" 0 0].

(** *** Shader grouping, from the words of the specification *)

(** The shader indices of the objects, in first-encounter order. *)
Definition shader_keys (objs : list DataGameObject) : list (option Z) :=
  Py.firsts option_Z_eq_dec (map shader objs).

(** The objects (positions in the store) with shader index [k], in
    declaration order. *)
Definition members (objs : list DataGameObject) (k : option Z) : list nat :=
  map fst (filter (fun p => option_Z_eqb (shader (snd p)) k)
             (enumerate objs)).

Definition partition_by_shader (objs : list DataGameObject) : list Group :=
  map (fun k => (k, members objs k)) (shader_keys objs).

(** The groups of a list of (reference, object) pairs, from the words of
    the specification. *)
Definition groups_of (l : list (nat * DataGameObject)) : list Group :=
  map (fun k =>
         (k, map fst (filter (fun p => option_Z_eqb (shader (snd p)) k) l)))
      (Py.firsts option_Z_eq_dec (map (fun p => shader (snd p)) l)).

(** *** Mesh packing, from the words of the specification *)

(** The meshes that are not [None]. *)
Definition somes (refs : list (option nat)) : list nat :=
  flat_map (fun r => match r with Some a => [a] | None => [] end) refs.

(** The meshes referenced by the objects of a scene, one entry per object
    in declaration order: [refs] is [[meshes[obj.mesh] for obj in
    objects]]. *)
Definition resolves (s : Scene) (refs : list (option nat)) : Prop :=
  Forall2 (fun obj r => getitem_opt (scene_meshes s) (obj_mesh obj) = Ok r)
    (scene_objects s) refs.

(** The distinct meshes in first-reference order. *)
Definition distinct_meshes (refs : list (option nat)) : list nat :=
  Py.firsts Nat.eq_dec (somes refs).

(** Meshes laid out one after the other from a start offset. *)
Fixpoint place (mesh_size : nat -> Z) (offset : Z) (l : list nat)
  : list DataMesh :=
  match l with
  | [] => []
  | a :: l' => mkDataMesh a offset :: place mesh_size (offset + mesh_size a) l'
  end.

(** The claim that base offsets always increase strictly. *)
Definition offsets_strictly_increase : Prop :=
  forall (mesh_size : nat -> Z) (s : Scene) (packed : PackLocals)
         (i j : nat) (di dj : DataMesh),
    pack_meshes mesh_size s = Ok packed ->
    (i < j)%nat ->
    nth_error (data_meshes packed) i = Some di ->
    nth_error (data_meshes packed) j = Some dj ->
    base_offset di < base_offset dj.

(** Two objects with two different meshes. *)
Definition two_mesh_scene : Scene :=
  mkScene [one_block_shader] [Some 5%nat; Some 6%nat]
    [mkGameObject (Some 0) (Some 0); mkGameObject (Some 0) (Some 1);
     mkGameObject (Some 0) (Some 0)].

(** *** Frame recording, from the words of the specification *)

(** The pipeline index bound after a sequence of objects when [prev] was
    bound before it: the index of the last object that has one. *)
Definition bound_after (prev : option Z) (objs : list DataGameObject)
  : option Z :=
  fold_left
    (fun b o => match pipeline o with Some p => Some p | None => b end)
    objs prev.

Definition is_pipeline_bind (c : VkCall) : bool :=
  match c with bind_pipeline _ _ => true | _ => false end.

Definition is_descriptor_bind (c : VkCall) : bool :=
  match c with bind_descriptor_sets _ _ _ => true | _ => false end.

Definition is_mesh_call (c : VkCall) : bool :=
  match c with
  | bind_index_buffer _ _ _ _ => true
  | bind_vertex_buffers _ _ _ => true
  | draw_indexed _ _ => true
  | _ => false
  end.

(** The commands of one object, when [prev] is the pipeline index bound
    before it: a pipeline bind exactly when the object has a pipeline index
    that differs from [prev], then a descriptor-set bind exactly when the
    object has descriptor sets, then the commands of its mesh. *)
Definition segment_ok (self : DataScene) (cmd : handle) (prev : option Z)
           (o : DataGameObject) (seg : list VkCall) : Prop :=
  exists pb db mb,
    seg = pb ++ db ++ mb
    /\ match pipeline o with
       | Some p =>
           if option_Z_eqb prev (Some p) then pb = []
           else exists h,
               getitem (pipelines self) p = Ok h
               /\ pb = [bind_pipeline cmd h]
       | None => pb = []
       end
    /\ match descriptor_sets o with
       | Some sets => exists layout, db = [bind_descriptor_sets cmd layout sets]
       | None => db = []
       end
    /\ forallb is_mesh_call mb = true.

(** The commands of a sequence of objects, one segment per object. *)
Fixpoint segments_ok (self : DataScene) (cmd : handle) (prev : option Z)
         (objs : list DataGameObject) (segs : list (list VkCall)) : Prop :=
  match objs, segs with
  | [], [] => True
  | o :: objs', seg :: segs' =>
      segment_ok self cmd prev o seg
      /\ segments_ok self cmd (bound_after prev [o]) objs' segs'
  | _, _ => False
  end.

(** A compiled scene to record: three objects whose pipelines are 0, 1, 0
    (interleaved), the second without descriptor sets. *)
Definition interleaved_scene : DataScene :=
  set_render_commands 50%nat [51%nat; 52%nat]
    (set_pipelines 40%nat [41%nat; 42%nat]
       (set_objects
          [mkDataGameObject (Some 0) None (Some 0) (Some [60%nat]) None;
           mkDataGameObject (Some 1) None (Some 1) None None;
           mkDataGameObject (Some 0) None (Some 0) (Some [61%nat]) None]
          (set_shaders [one_block_compiled; one_block_compiled]
             (DataScene_new engine0 swapped_scene)))).

(** The state after recording [interleaved_scene] for framebuffer 0 (no
    object has a mesh, so the mesh attributes are not read). *)
Definition interleaved_recorded : Vk :=
  Eval vm_compute in
    fst (record (fun _ => 0) (fun _ => 0) (fun _ => 0) (fun _ => 0%nat)
           (fun _ _ => Ok []) interleaved_scene 0 vk0).

(* ===================================================================== *)
(** ** Further observations                                              *)
(* ===================================================================== *)

(** The write sets generated for the templates of one descriptor set when
    the running offset is [offset]: each template is bound to the byte
    range that starts where the previous one ends. *)
Fixpoint laid_out_write_sets (uniform_buffer : handle) (offset : Z)
         (templates : list WriteSetTemplate) (descriptor_set : handle)
  : list WriteSet :=
  match templates with
  | [] => []
  | t :: templates' =>
      mkWriteSet descriptor_set (wst_binding t) (wst_descriptor_type t)
        (mkBufferInfo uniform_buffer offset (wst_range t))
      :: laid_out_write_sets uniform_buffer (offset + wst_range t)
           templates' descriptor_set
  end.

(** A framebuffer index outside [-n, n), for [n] command buffers. *)
Definition index_out_of_range {A} (l : list A) (i : Z) : Prop :=
  i < - Z.of_nat (List.length l) \/ Z.of_nat (List.length l) <= i.

(** An object whose mesh index does not resolve in [scene.meshes]. *)
Definition unresolved_mesh (s : Scene) (obj : GameObject) : Prop :=
  forall m, getitem_opt (scene_meshes s) (obj_mesh obj) <> Ok m.

(** A scene whose second object has a mesh index out of range. *)
Definition missing_mesh_scene : Scene :=
  mkScene [one_block_shader] [Some 5%nat]
    [mkGameObject (Some 0) (Some 0); mkGameObject (Some 0) (Some 3)].

(** [d.get(k, 0)] for a dict of integers. *)
Fixpoint dict_get (k : Z) (d : list (Z * Z)) : Z :=
  match d with
  | [] => 0
  | (k', v) :: d' => if k =? k' then v else dict_get k d'
  end.

(** The shader of a group, when its index resolves. *)
Definition group_resolves (shs : list DataShader) (g : Group) : Prop :=
  exists sh, getitem_opt shs (fst g) = Ok sh.

(** Descriptors of type [t] in the counts of one set layout. *)
Definition type_count (t : Z) (counts : list (Z * Z)) : Z :=
  Py.sum (map snd (filter (fun tc => fst tc =? t) counts)).

(** Sets needed by a group: one per object and set layout of its shader;
    none when the shader has no uniform. *)
Definition group_set_count (shs : list DataShader) (g : Group) : Z :=
  match getitem_opt shs (fst g) with
  | Ok sh =>
      match descriptor_set_layouts sh with
      | Some layouts =>
          Z.of_nat (List.length (snd g)) * Z.of_nat (List.length layouts)
      | None => 0
      end
  | Raise _ => 0
  end.

(** Descriptors of type [t] needed by a group. *)
Definition group_type_count (shs : list DataShader) (t : Z) (g : Group) : Z :=
  match getitem_opt shs (fst g) with
  | Ok sh =>
      match descriptor_set_layouts sh with
      | Some layouts =>
          Z.of_nat (List.length (snd g))
          * Py.sum (map (fun l => type_count t (pool_size_counts l)) layouts)
      | None => 0
      end
  | Raise _ => 0
  end.

(** A scene after [_setup_shaders] and [_setup_objects], with the state
    reached; the scene as created when a step raises. *)
Definition staged (s : Scene) : Vk * DataScene :=
  match (self <- _setup_shaders (DataScene_new engine0 s) ;;
         _setup_objects mesh100 self) vk0 with
  | (v, Ok self) => (v, self)
  | (v, Raise _) => (v, DataScene_new engine0 s)
  end.

Definition swapped_staged : Vk * DataScene :=
  Eval vm_compute in staged swapped_scene.

(** A group whose shader resolves and declares uniforms. *)
Definition group_has_layouts (shs : list DataShader) (g : Group) : Prop :=
  exists sh layouts,
    getitem_opt shs (fst g) = Ok sh
    /\ descriptor_set_layouts sh = Some layouts.

(** A group whose shader resolves and declares no uniform. *)
Definition group_without_layouts (shs : list DataShader) (g : Group)
  : Prop :=
  exists sh,
    getitem_opt shs (fst g) = Ok sh /\ descriptor_set_layouts sh = None.

(** Bytes of uniform data of a group: the packed blocks of its shader,
    once per object. *)
Definition group_uniform_bytes (shs : list DataShader) (g : Group) : Z :=
  match getitem_opt shs (fst g) with
  | Ok sh =>
      match descriptor_set_layouts sh with
      | Some layouts =>
          Py.sum (map struct_map_size_bytes layouts)
          * Z.of_nat (List.length (snd g))
      | None => 0
      end
  | Raise _ => 0
  end.

(** The descriptor sets allocated by a sequence of calls. *)
Definition allocated_sets (log : list VkCall) : list handle :=
  flat_map (fun c =>
              match c with
              | allocate_descriptor_sets _ _ hs => hs
              | _ => []
              end) log.

(** One object that uses a shader without uniforms. *)
Definition no_uniform_scene : Scene :=
  mkScene [simple_shader []] [Some 5%nat] [mkGameObject (Some 0) (Some 0)].

Definition no_uniform_staged : Vk * DataScene :=
  Eval vm_compute in staged no_uniform_scene.

(** *** The set layouts of a shader, from its reflection mapping *)

(** The uniforms declared in set [k], in declaration order. *)
Definition uniforms_of_set (us : list Uniform) (k : Z) : list Uniform :=
  filter (fun u => uniform_set u =? k) us.

(** The set indices, in first-encounter order. *)
Definition uniform_sets (us : list Uniform) : list Z :=
  Py.firsts Z.eq_dec (map uniform_set us).

Definition uniforms_by_set (us : list Uniform) : list (Z * list Uniform) :=
  map (fun k => (k, uniforms_of_set us k)) (uniform_sets us).

(** Floats of one element of a member type; 0 outside the enumeration. *)
Definition member_floats (value : Z) : Z :=
  match UniformMemberType_of_value value with
  | Ok FLOAT_MAT2 => 4
  | Ok FLOAT_MAT3 => 9
  | Ok FLOAT_MAT4 => 16
  | Raise _ => 0
  end.

(** Bytes of the fields of a block laid out one after the other. *)
Definition packed_size (fields : list Field) : Z :=
  Py.sum (map (fun f => 4 * (field_count f * member_floats (field_type f)))
            fields).

Definition template_of (u : Uniform) : WriteSetTemplate :=
  mkWst (uniform_type u) (packed_size (uniform_fields u))
    (uniform_binding u).

(** Descriptors of type [t] declared by a list of uniforms. *)
Definition declared_count (t : Z) (us : list Uniform) : Z :=
  Py.sum (map uniform_count (filter (fun u => uniform_type u =? t) us)).

(** The set layout [l] was built from the uniforms of the group [g]. *)
Definition layout_of_group (g : Z * list Uniform) (l : DescriptorSetLayout)
  : Prop :=
  exists locals h,
    fold_result (snd g) uniform_body (mkSetLocals [] [] [] []) = Ok locals
    /\ l = DescriptorSetLayout_init h (structs locals) (counts locals)
             (wst locals).

(** No field of the shader's uniforms is a 3x3 matrix. *)
Definition no_mat3 (us : list Uniform) : Prop :=
  Forall (fun u => Forall (fun f => field_type f <> 1) (uniform_fields u)) us.

(** Set 1 is declared before set 0. *)
Definition reversed_sets_shader : Shader :=
  simple_shader
    [mat4_uniform "a" 1 0;
     mkUniform "b" 0 0 vk.DESCRIPTOR_TYPE_UNIFORM_BUFFER 1
       vk.SHADER_STAGE_VERTEX_BIT [mkField "m" 0 2; mkField "n" 2 1];
     mat4_uniform "c" 1 1].

Definition reversed_sets_vk : Vk :=
  Eval vm_compute in fst (DataShader_init reversed_sets_shader vk0).

Definition reversed_sets_compiled : DataShader :=
  Eval vm_compute in
    match snd (DataShader_init reversed_sets_shader vk0) with
    | Ok ds => ds
    | Raise _ => mkDataShader false [] [] (mkVertexInputState [] []) [] None 0%nat
    end.

(** The sizes of the structures of a dict, by name. *)
Definition struct_sizes (d : list (string * Struct)) : list (string * Z) :=
  map (fun p => (fst p, sizeof (snd p))) d.

(** The pipeline create-info [i] was built from the shader of index [k]. *)
Definition info_of_shader (e : Engine) (shs : list DataShader)
           (k : option Z) (i : PipelineInfo) : Prop :=
  exists sh, getitem_opt shs k = Ok sh /\ i = pipeline_info e sh.

(** Object [j] belongs to one of the groups. *)
Definition in_groups (groups : list Group) (j : nat) : bool :=
  existsb (fun g : Group => existsb (Nat.eqb j) (snd g)) groups.

(** An object whose shader index resolves in the compiled shaders. *)
Definition shader_resolves (shs : list DataShader) (o : DataGameObject)
  : Prop :=
  exists sh, getitem_opt shs (shader o) = Ok sh.

Definition shader_unresolved (shs : list DataShader) (o : DataGameObject)
  : Prop :=
  forall sh, getitem_opt shs (shader o) <> Ok sh.

(** The object's shader index is out of range. *)
Definition missing_shader_scene : Scene :=
  mkScene [one_block_shader] [Some 5%nat]
    [mkGameObject (Some 0) (Some 0); mkGameObject (Some 4) (Some 0)].

Definition missing_shader_staged : Vk * DataScene :=
  Eval vm_compute in staged missing_shader_scene.

Definition shared_staged : Vk * DataScene :=
  Eval vm_compute in staged shared_shader_scene.

Definition one_block_layouts : list DescriptorSetLayout :=
  Eval vm_compute in
    match descriptor_set_layouts one_block_compiled with
    | Some layouts => layouts
    | None => []
    end.

(** The bytes bound by the templates of one set layout. *)
Definition layout_range (l : DescriptorSetLayout) : Z :=
  Py.sum (map wst_range (write_set_templates l)).

(** The write sets of the successive (descriptor set, layout) pairs of one
    object, the first pair starting at [offset]. *)
Fixpoint pairs_write_sets (uniform_buffer : handle) (offset : Z)
         (pairs : list (handle * DescriptorSetLayout))
  : list (list WriteSet) :=
  match pairs with
  | [] => []
  | p :: pairs' =>
      laid_out_write_sets uniform_buffer offset
        (write_set_templates (snd p)) (fst p)
      :: pairs_write_sets uniform_buffer (offset + layout_range (snd p))
           pairs'
  end.

(** Every template of every layout is a uniform buffer. *)
Definition uniform_buffers_only (layouts : list DescriptorSetLayout) : Prop :=
  Forall
    (fun l =>
       Forall
         (fun t => wst_descriptor_type t = vk.DESCRIPTOR_TYPE_UNIFORM_BUFFER)
         (write_set_templates l))
    layouts.

(** The layouts of the shader with two sets, and an object that holds one
    descriptor set for each. *)
Definition two_set_layouts : list DescriptorSetLayout :=
  Eval vm_compute in
    match snd (DataShader_init two_set_shader vk0) with
    | Ok ds =>
        match descriptor_set_layouts ds with
        | Some layouts => layouts
        | None => []
        end
    | Raise _ => []
    end.

Definition two_set_compiled : DataShader :=
  Eval vm_compute in
    match snd (DataShader_init two_set_shader vk0) with
    | Ok ds => ds
    | Raise _ => mkDataShader false [] [] (mkVertexInputState [] []) [] None 0%nat
    end.

Definition two_set_object : DataGameObject :=
  mkDataGameObject (Some 0) (Some 0) (Some 0) (Some [20%nat; 21%nat]) None.

(** *** Members that ctypes can hold *)


(** The longest array of floats. *)
Definition max_array_length : Z := PY_SSIZE_T_MAX / 4.




(** *** The native calls of the set layouts *)




(* ===================================================================== *)
(** ** Properties                                                        *)
(* ===================================================================== *)

(** *** Sums *)

Lemma fold_left_add (l : list Z) (a : Z) :
  fold_left Z.add l a = a + Py.sum l.
Proof.
  unfold Py.sum. revert a. induction l as [|x l IH]; intros a; simpl.
  - lia.
  - rewrite IH, (IH x). lia.
Qed.

Lemma sum_cons (x : Z) (l : list Z) : Py.sum (x :: l) = x + Py.sum l.
Proof. unfold Py.sum at 1. simpl. rewrite fold_left_add. lia. Qed.

Lemma sum_app (l1 l2 : list Z) : Py.sum (l1 ++ l2) = Py.sum l1 + Py.sum l2.
Proof.
  induction l1 as [|x l1 IH]; simpl.
  - reflexivity.
  - rewrite !sum_cons, IH. lia.
Qed.

(** *** Loops that raise *)


Lemma fold_result_fails A S (body : S -> A -> result S) (P : A -> Prop)
      (Q : exn -> Prop) :
  (forall s x e, body s x = Raise e -> Q e) ->
  (forall s x, P x -> exists e, body s x = Raise e) ->
  forall l, Exists P l ->
  forall s, exists e, fold_result l body s = Raise e /\ Q e.
Proof.
  intros Hall Hbad l. induction l as [|x l IH]; intros HE s.
  - inversion HE.
  - simpl. destruct (body s x) as [s'|e] eqn:Hb.
    + inversion HE as [? ? HP|? ? HP]; subst.
      * destruct (Hbad s x HP) as (e & He). rewrite He in Hb. discriminate.
      * now apply IH.
    + exists e. split; [reflexivity|]. eapply Hall. exact Hb.
Qed.


Lemma for_fold_raises_on A S (body : S -> A -> M S) (P : A -> Prop)
      (e0 : exn) (l : list A) :
  (forall s x v v' e, In x l -> body s x v = (v', Raise e) -> e = e0) ->
  (forall s x v, In x l -> P x -> snd (body s x v) = Raise e0) ->
  Exists P l -> forall s v, snd (for_fold l body s v) = Raise e0.
Proof.
  induction l as [|x l IH]; intros Hall Hbad HE s v.
  - inversion HE.
  - simpl. unfold bind. destruct (body s x v) as [v' [s'|e]] eqn:Hb.
    + inversion HE as [? ? HP|? ? HP]; subst.
      * specialize (Hbad s x v (or_introl eq_refl) HP).
        rewrite Hb in Hbad. discriminate.
      * apply IH; [| |exact HP].
        -- intros s0 x0 v0 v1 e Hin. apply Hall. now right.
        -- intros s0 x0 v0 Hin. apply Hbad. now right.
    + simpl. f_equal. eapply Hall; [now left|exact Hb].
Qed.


Lemma for_each_call A (f : A -> VkCall) (l : list A) (v : Vk) :
  for_each l (fun x => call (f x)) v
  = (mkVk (next_handle v) (calls v ++ map f l), Ok tt).
Proof.
  revert v. induction l as [|x l IH]; intros v; simpl.
  - unfold ret. rewrite app_nil_r. now destruct v.
  - unfold bind. unfold call at 1. rewrite IH. simpl.
    now rewrite <- app_assoc.
Qed.

Lemma _compile_shader_run (sh : Shader) (v : Vk) :
  _compile_shader sh v
  = (mkVk (S (S (next_handle v)))
       (calls v ++ [create_shader_module (vert sh) (next_handle v);
                    create_shader_module (frag sh) (S (next_handle v))]),
     Ok ([next_handle v; S (next_handle v)],
         [mkStageInfo vk.SHADER_STAGE_VERTEX_BIT (next_handle v);
          mkStageInfo vk.SHADER_STAGE_FRAGMENT_BIT (S (next_handle v))])).
Proof.
  unfold _compile_shader. simpl. unfold bind, create, ret. simpl.
  now rewrite <- app_assoc.
Qed.

Lemma set_body_run (layouts : list DescriptorSetLayout)
      (g : Z * list Uniform) (v : Vk) :
  set_body layouts g v
  = match fold_result (snd g) uniform_body (mkSetLocals [] [] [] []) with
    | Ok locals =>
        (mkVk (S (next_handle v))
           (calls v ++ [create_descriptor_set_layout (layout_bindings locals)
                          (next_handle v)]),
         Ok (layouts ++
             [DescriptorSetLayout_init (next_handle v) (structs locals)
                (counts locals) (wst locals)]))
    | Raise e => (v, Raise e)
    end.
Proof.
  unfold set_body, bind, lift, create, ret.
  now destruct (fold_result (snd g) uniform_body _).
Qed.

Lemma set_loop_handles (groups : list (Z * list Uniform)) :
  forall layouts v v' layouts',
    for_fold groups set_body layouts v = (v', Ok layouts') ->
    map set_layout layouts'
    = map set_layout layouts ++ seq (next_handle v) (List.length groups)
    /\ next_handle v' = (next_handle v + List.length groups)%nat.
Proof.
  induction groups as [|g groups IH]; intros layouts v v' layouts' H; simpl in *.
  - inversion H; subst. rewrite app_nil_r. split; [reflexivity | lia].
  - unfold bind in H. rewrite set_body_run in H.
    destruct (fold_result (snd g) uniform_body (mkSetLocals [] [] [] []))
      as [locals|e]; [|discriminate].
    apply IH in H. destruct H as [H1 H2]. simpl in *.
    rewrite H1, H2. rewrite map_app. simpl. rewrite <- app_assoc. simpl.
    split; [reflexivity | lia].
Qed.

Lemma DataShader_init_no_uniforms (sh : Shader) (v : Vk) :
  uniforms (mapping sh) = [] ->
  DataShader_init sh v
  = (mkVk (S (S (S (next_handle v))))
       (calls v ++ [create_shader_module (vert sh) (next_handle v);
                    create_shader_module (frag sh) (S (next_handle v));
                    create_pipeline_layout [] (S (S (next_handle v)))]),
     Ok (mkDataShader true [next_handle v; S (next_handle v)]
           [mkStageInfo vk.SHADER_STAGE_VERTEX_BIT (next_handle v);
            mkStageInfo vk.SHADER_STAGE_FRAGMENT_BIT (S (next_handle v))]
           (fst (_setup_vertex_state sh)) (snd (_setup_vertex_state sh))
           None (S (S (next_handle v))))).
Proof.
  intros H. unfold DataShader_init, bind. rewrite _compile_shader_run.
  unfold _setup_vertex_state, _setup_descriptor_layouts. rewrite H. simpl.
  unfold ret. simpl. now rewrite <- app_assoc.
Qed.

Lemma DataShader_init_uniforms (sh : Shader) (v v' : Vk) (ds : DataShader) :
  uniforms (mapping sh) <> [] ->
  DataShader_init sh v = (v', Ok ds) ->
  exists layouts,
    descriptor_set_layouts ds = Some layouts
    /\ has_engine ds = true
    /\ modules ds = [next_handle v; S (next_handle v)]
    /\ map set_layout layouts
       = seq (S (S (next_handle v))) (List.length layouts)
    /\ pipeline_layout ds = (S (S (next_handle v)) + List.length layouts)%nat
    /\ next_handle v' = (S (S (S (next_handle v))) + List.length layouts)%nat.
Proof.
  intros Hne H. unfold DataShader_init, bind in H.
  rewrite _compile_shader_run in H.
  unfold _setup_vertex_state, _setup_descriptor_layouts in H.
  destruct (uniforms (mapping sh)) as [|u us] eqn:Hu; [congruence|].
  simpl in H. unfold bind in H.
  destruct (for_fold (_group_uniforms_by_sets sh) set_body [] _)
    as [v1 [layouts|e]] eqn:Hloop; [|discriminate].
  apply set_loop_handles in Hloop. destruct Hloop as [Hh Hn]. simpl in *.
  unfold ret, _setup_pipeline_layout, create in H. simpl in H.
  inversion H; subst; clear H. simpl.
  exists layouts.
  assert (Hlen : List.length layouts
                 = List.length (_group_uniforms_by_sets sh)).
  { rewrite <- (length_map set_layout), Hh. now rewrite length_seq. }
  rewrite Hlen, Hh, Hn. repeat split; lia.
Qed.

Lemma destroyed_handles_app (l1 l2 : list VkCall) :
  destroyed_handles (l1 ++ l2) = destroyed_handles l1 ++ destroyed_handles l2.
Proof. apply flat_map_app. Qed.

Lemma destroyed_handles_map (f : handle -> VkCall) (hs : list handle) :
  (forall h, destroyed (f h) = [h]) ->
  destroyed_handles (map f hs) = hs.
Proof.
  intros Hf. induction hs as [|h hs IH]; simpl; [reflexivity|].
  rewrite Hf. simpl. f_equal. exact IH.
Qed.

Lemma skipn_length_app A (l1 l2 : list A) :
  skipn (List.length l1) (l1 ++ l2) = l2.
Proof. induction l1; simpl; auto. Qed.

Lemma DataShader_free_run (ds : DataShader) (layouts : list DescriptorSetLayout)
      (w : Vk) :
  has_engine ds = true ->
  descriptor_set_layouts ds = Some layouts ->
  DataShader_free ds w
  = (mkVk (next_handle w)
       (calls w
        ++ map destroy_descriptor_set_layout (map set_layout layouts)
        ++ [destroy_pipeline_layout (pipeline_layout ds)]
        ++ map destroy_shader_module (modules ds)),
     Ok (mkDataShader false (modules ds) (stage_infos ds)
           (vertex_input_state ds) (ordered_attribute_names ds)
           (descriptor_set_layouts ds) (pipeline_layout ds))).
Proof.
  intros He Hl. unfold DataShader_free. rewrite He, Hl. simpl.
  unfold bind.
  rewrite (for_each_call
             (fun l => destroy_descriptor_set_layout (set_layout l))).
  unfold call at 1. simpl.
  rewrite (for_each_call destroy_shader_module). simpl. unfold ret.
  rewrite map_map, <- !app_assoc. reflexivity.
Qed.

Lemma released_free (ds : DataShader) (layouts : list DescriptorSetLayout)
      (w : Vk) :
  has_engine ds = true ->
  descriptor_set_layouts ds = Some layouts ->
  released w (fst (DataShader_free ds w))
  = map set_layout layouts ++ [pipeline_layout ds] ++ modules ds.
Proof.
  intros He Hl. rewrite (DataShader_free_run _ w He Hl). unfold released.
  simpl calls. rewrite skipn_length_app, destroyed_handles_app.
  rewrite destroyed_handles_map by reflexivity.
  f_equal. simpl. f_equal. now apply destroyed_handles_map.
Qed.

(** C10. A shader whose reflection mapping declares no uniform compiles:
    its layout list stays [None] and its pipeline layout is created from
    an empty list of set layouts; [free] on it raises before any handle is
    destroyed (the state of the device is unchanged). A compiled shader
    that declares at least one uniform is freed without error. *)
Theorem free_requires_a_uniform :
  (forall (sh : Shader) (v : Vk),
      uniforms (mapping sh) = [] ->
      exists v' ds,
        DataShader_init sh v = (v', Ok ds)
        /\ descriptor_set_layouts ds = None
        /\ In (create_pipeline_layout [] (pipeline_layout ds)) (calls v')
        /\ forall w, DataShader_free ds w = (w, Raise TypeError))
  /\ (forall (sh : Shader) (v v' w : Vk) (ds : DataShader),
         uniforms (mapping sh) <> [] ->
         DataShader_init sh v = (v', Ok ds) ->
         exists w' ds', DataShader_free ds w = (w', Ok ds')).
Proof.
  split.
  - intros sh v H. eexists. eexists.
    split; [apply DataShader_init_no_uniforms; exact H|].
    simpl. split; [reflexivity|]. split.
    + apply in_or_app. right. simpl. auto.
    + intros w. reflexivity.
  - intros sh v v' w ds Hne H.
    destruct (DataShader_init_uniforms _ _ Hne H)
      as (layouts & Hl & He & _).
    eexists. eexists. apply (DataShader_free_run _ w He Hl).
Qed.

Lemma free_requires_a_uniform_witness :
  (exists v' ds,
      DataShader_init (simple_shader []) vk0 = (v', Ok ds)
      /\ descriptor_set_layouts ds = None
      /\ In (create_pipeline_layout [] (pipeline_layout ds)) (calls v')
      /\ forall w, DataShader_free ds w = (w, Raise TypeError))
  /\ (exists w' ds',
         DataShader_free one_block_compiled one_block_vk = (w', Ok ds')).
Proof.
  split.
  - apply (proj1 free_requires_a_uniform). reflexivity.
  - apply (proj2 free_requires_a_uniform one_block_shader vk0 one_block_vk).
    + discriminate.
    + reflexivity.
Defined.

(** C9, as stated, fails: for a shader with one uniform block the handles
    are acquired in the order 0, 1 (stage modules), 2 (set layout),
    3 (pipeline layout) and released in the order 2, 3, 0, 1: the set
    layout is destroyed before the pipeline layout. *)
Lemma free_is_not_reverse_acquisition :
  exists v' w' ds ds',
    DataShader_init one_block_shader vk0 = (v', Ok ds)
    /\ DataShader_free ds v' = (w', Ok ds')
    /\ acquired vk0 v' = [0; 1; 2; 3]%nat
    /\ released v' w' = [2; 3; 0; 1]%nat
    /\ ~ releases_in_reverse_acquisition_order.
Proof.
  do 4 eexists. split; [reflexivity|]. split; [reflexivity|].
  split; [reflexivity|]. split; [reflexivity|].
  intros H.
  specialize (H one_block_shader vk0 _ vk0 _ _ _ eq_refl eq_refl).
  vm_compute in H. discriminate.
Qed.

(** C9, amended. For every compiled shader that declares at least one
    uniform, [free] succeeds and destroys every native handle acquired by
    the compilation exactly once, in the order: descriptor set layouts (in
    creation order), then the pipeline layout, then the stage modules (in
    creation order). The stage modules, acquired first, are destroyed
    last; the pipeline layout, acquired last, is destroyed after the set
    layouts. *)
Theorem free_releases_each_handle_once
        (sh : Shader) (v v' w : Vk) (ds : DataShader) :
  uniforms (mapping sh) <> [] ->
  DataShader_init sh v = (v', Ok ds) ->
  exists layouts w' ds',
    descriptor_set_layouts ds = Some layouts
    /\ DataShader_free ds w = (w', Ok ds')
    /\ acquired v v'
       = modules ds ++ map set_layout layouts ++ [pipeline_layout ds]
    /\ released w w'
       = map set_layout layouts ++ [pipeline_layout ds] ++ modules ds
    /\ Permutation (released w w') (acquired v v')
    /\ NoDup (released w w').
Proof.
  intros Hne H.
  destruct (DataShader_init_uniforms _ _ Hne H)
    as (layouts & Hl & He & Hm & Hs & Hp & Hn).
  pose proof (DataShader_free_run _ w He Hl) as E.
  assert (Ha : acquired v v'
               = modules ds ++ map set_layout layouts ++ [pipeline_layout ds]).
  { unfold acquired. rewrite Hn, Hm, Hs, Hp.
    replace (S (S (S (next_handle v))) + List.length layouts - next_handle v)%nat
      with (2 + (List.length layouts + 1))%nat by lia.
    rewrite seq_app. simpl seq at 1. rewrite seq_app. simpl.
    repeat f_equal; lia. }
  pose proof (released_free _ w He Hl) as Hr.
  rewrite E in Hr. cbn [fst] in Hr.
  assert (Hperm : Permutation
                    (map set_layout layouts ++ [pipeline_layout ds]
                     ++ modules ds)
                    (acquired v v')).
  { rewrite Ha, app_assoc. apply Permutation_app_comm. }
  exists layouts. eexists. eexists.
  split; [exact Hl|]. split; [exact E|].
  split; [exact Ha|]. split; [exact Hr|].
  split; [rewrite Hr; exact Hperm|].
  rewrite Hr. apply (Permutation_NoDup (Permutation_sym Hperm)).
  unfold acquired. apply seq_NoDup.
Qed.

Lemma free_releases_each_handle_once_witness :
  exists layouts w' ds',
    descriptor_set_layouts one_block_compiled = Some layouts
    /\ DataShader_free one_block_compiled one_block_vk = (w', Ok ds')
    /\ acquired vk0 one_block_vk
       = modules one_block_compiled ++ map set_layout layouts
         ++ [pipeline_layout one_block_compiled]
    /\ released one_block_vk w'
       = map set_layout layouts ++ [pipeline_layout one_block_compiled]
         ++ modules one_block_compiled
    /\ Permutation (released one_block_vk w') (acquired vk0 one_block_vk)
    /\ NoDup (released one_block_vk w').
Proof.
  apply (@free_releases_each_handle_once one_block_shader vk0 one_block_vk
           one_block_vk one_block_compiled).
  - discriminate.
  - reflexivity.
Defined.

(** *** Errors of the loops *)

Lemma fold_result_raises A S (body : S -> A -> result S) (P : A -> Prop)
      (e0 : exn) :
  (forall s x e, body s x = Raise e -> e = e0) ->
  (forall s x, P x -> body s x = Raise e0) ->
  forall l, Exists P l -> forall s, fold_result l body s = Raise e0.
Proof.
  intros Hall Hbad l. induction l as [|x l IH]; intros HE s.
  - inversion HE.
  - simpl. destruct (body s x) as [s'|e] eqn:Hb.
    + inversion HE as [? ? HP|? ? HP]; subst.
      * rewrite (Hbad s x HP) in Hb. discriminate.
      * now apply IH.
    + f_equal. eapply Hall. exact Hb.
Qed.

(** *** The member types *)



Lemma member_floats_known (value : Z) (mt : UniformMemberType) :
  UniformMemberType_of_value value = Ok mt ->
  member_floats value
  = match mt with
    | FLOAT_MAT2 => 4
    | FLOAT_MAT3 => 9
    | FLOAT_MAT4 => 16
    end.
Proof. intros H. unfold member_floats. now rewrite H. Qed.


Lemma c_float_times_ok (n : Z) (t : CType) :
  c_float_times n = Ok t ->
  t = c_float_array n /\ 0 <= n <= max_array_length.
Proof.
  unfold max_array_length, c_float_times.
  assert (Hq : PY_SSIZE_T_MAX / 4 = 2305843009213693951) by reflexivity.
  rewrite Hq.
  destruct (Z.ltb_spec n (- PY_SSIZE_T_MAX - 1)); [discriminate|].
  destruct (Z.ltb_spec PY_SSIZE_T_MAX n); [discriminate|]. cbn [orb].
  destruct (Z.ltb_spec n 0); [discriminate|].
  destruct (Z.ltb_spec 2305843009213693951 n); [discriminate|].
  intros Hok. inversion Hok. split; [reflexivity|lia].
Qed.





(** *** The size of a structure *)

Lemma member_ctype_size (value count1 : Z) (t : CType) :
  uniform_member_as_ctype value count1 = Ok t ->
  sizeof_ctype t = 4 * (count1 * member_floats value).
Proof.
  unfold uniform_member_as_ctype.
  destruct (UniformMemberType_of_value value) as [mt|] eqn:Hm;
    [|discriminate].
  rewrite (member_floats_known _ Hm). intros H.
  apply c_float_times_ok in H. destruct H as [-> _]. reflexivity.
Qed.

Lemma struct_args_loop (fields : list Field) :
  forall acc args,
    fold_result fields
      (fun args field =>
         match uniform_member_as_ctype (field_type field) (field_count field)
         with
         | Ok field_ctype => Ok (args ++ [(field_name field, field_ctype)])
         | Raise e => Raise e
         end) acc = Ok args ->
    Py.sum (map (fun f : string * CType => sizeof_ctype (snd f)) args)
    = Py.sum (map (fun f : string * CType => sizeof_ctype (snd f)) acc)
      + packed_size fields.
Proof.
  induction fields as [|f fields IH]; intros acc args H.
  - simpl in H. inversion H; subst. unfold packed_size, Py.sum at 3. simpl.
    lia.
  - cbn [fold_result] in H.
    destruct (uniform_member_as_ctype _ _) as [ct|] eqn:Hc; [|discriminate].
    apply IH in H. rewrite H, map_app, sum_app. cbn [map snd].
    unfold packed_size. cbn [map]. rewrite !sum_cons.
    rewrite (@member_ctype_size _ _ _ Hc).
    unfold Py.sum at 2. simpl. lia.
Qed.

Lemma struct_args_size (fields : list Field) (args : list (string * CType))
      (name : string) (pack : Z) :
  struct_args fields = Ok args ->
  sizeof (mkStruct name pack args) = packed_size fields.
Proof.
  intros H. unfold sizeof. cbn [struct_fields].
  rewrite (@struct_args_loop _ _ _ H). unfold Py.sum at 1. simpl. lia.
Qed.

Lemma Structure_ok (name : string) (pack : Z)
      (fields : list (string * CType)) (s : Struct) :
  Structure name pack fields = Ok s ->
  s = mkStruct name pack fields /\ sizeof s <= PY_SSIZE_T_MAX.
Proof.
  unfold Structure.
  destruct (Z.ltb_spec PY_SSIZE_T_MAX (sizeof (mkStruct name pack fields)));
    [discriminate|].
  intros Hok. inversion Hok; subst. split; [reflexivity|assumption].
Qed.



(** *** Errors of a compilation *)







(** *** Grouping of the uniforms by set keeps every uniform *)














(** C7 fails on the code: the packed size of a block of one 3x3 matrix is
    36 bytes, in the write-set template and in the per-set struct size;
    36 is not a multiple of 16. *)
Theorem mat3_block_size_is_not_aligned :
  exists v ds l t,
    DataShader_init mat3_shader vk0 = (v, Ok ds)
    /\ descriptor_set_layouts ds = Some [l]
    /\ write_set_templates l = [t]
    /\ wst_range t = 36
    /\ struct_map_size_bytes l = 36
    /\ wst_range t mod 16 <> 0
    /\ struct_map_size_bytes l mod 16 <> 0.
Proof.
  do 4 eexists. split; [reflexivity|]. split; [reflexivity|].
  split; [reflexivity|]. repeat split; vm_compute; congruence.
Qed.

(** C1 fails on the code. In the scene of two objects sharing a shader
    with one set layout, the batched call allocates 2 x 1 = 2 descriptor
    sets (handles 11 and 12), but the slices are cut with a stride of the
    object count: the first object receives both handles and the second
    object receives none, where each should receive one. The same happens
    with one object and two set layouts: the object receives the first
    handle only. [__init__] then raises on the first scene. *)
Theorem descriptor_sets_sliced_by_object_count :
  (exists v self,
      DataScene_init_resources mesh100 engine0 shared_shader_scene vk0
      = (v, Ok self)
      /\ In (allocate_descriptor_sets (descriptor_pool self)
               [2%nat; 2%nat] [11%nat; 12%nat]) (calls v)
      /\ map descriptor_sets (objects self)
         = [Some [11%nat; 12%nat]; None])
  /\ (exists v self,
         DataScene_init_resources mesh100 engine0 two_set_scene vk0
         = (v, Ok self)
         /\ In (allocate_descriptor_sets (descriptor_pool self)
                  [2%nat; 3%nat] [12%nat; 13%nat]) (calls v)
         /\ map descriptor_sets (objects self) = [Some [12%nat]])
  /\ snd (DataScene_init mesh100 engine0 shared_shader_scene vk0)
     = Raise TypeError.
Proof.
  split; [|split].
  - do 2 eexists. split; [vm_compute; reflexivity|]. split; [|vm_compute; reflexivity].
    vm_compute. tauto.
  - do 2 eexists. split; [vm_compute; reflexivity|]. split; [|vm_compute; reflexivity].
    vm_compute. tauto.
  - vm_compute. reflexivity.
Qed.

(** C3 fails on the code. For one object whose shader declares two sets of
    64 bytes each, the uniform buffer is created with 128 bytes, and the
    running offset at the end of the write-set generation is 64: the
    object was given one descriptor set only, so the templates of the
    second set are never written. *)
Theorem uniform_offset_stops_short :
  exists v self v',
    DataScene_init_resources mesh100 engine0 two_set_scene vk0 = (v, Ok self)
    /\ In (create_buffer 128 vk.BUFFER_USAGE_UNIFORM_BUFFER_BIT
             (uniforms_buffer self)) (calls v)
    /\ buffer_size (calls v) (uniforms_buffer self) = 128
    /\ final_uniform_offset self v = (v', Ok 64).
Proof.
  do 3 eexists. split; [vm_compute; reflexivity|]. split; [vm_compute; tauto|].
  split; vm_compute; reflexivity.
Qed.

(** C2 fails on the code. In the scene whose first object uses shader 1
    and whose second object uses shader 0, two pipelines are created, in
    the order of the groups (shader 1, then shader 0), and every object
    gets its shader index as pipeline index: the pipeline selected for the
    first object is the one created from the stages and layout of
    shader 0. *)
Theorem pipeline_index_is_the_shader_index :
  exists v self sh0 sh1 o0 o1 p0 p1,
    DataScene_init mesh100 engine0 swapped_scene vk0 = (v, Ok self)
    /\ shaders self = [sh0; sh1]
    /\ objects self = [o0; o1]
    /\ pipelines self = [p0; p1]
    /\ shader o0 = Some 1 /\ pipeline o0 = Some 1
    /\ getitem_opt (pipelines self) (pipeline o0) = Ok p1
    /\ pipeline_created_from (calls v) p1 = Some (pipeline_info engine0 sh0)
    /\ pipeline_created_from (calls v) p0 = Some (pipeline_info engine0 sh1)
    /\ pipeline_info engine0 sh0 <> pipeline_info engine0 sh1.
Proof.
  do 8 eexists. split; [vm_compute; reflexivity|]. repeat (split; [vm_compute; reflexivity|]).
  vm_compute. discriminate.
Qed.

(** *** First-encounter order *)

Section Firsts.

Variable A : Type.
Variable eq_dec : forall x y : A, {x = y} + {x <> y}.

Lemma firsts_In (l : list A) (x : A) :
  In x (Py.firsts eq_dec l) <-> In x l.
Proof.
  induction l as [|y l IH]; simpl; [tauto|].
  split.
  - intros [H|H]; [now left|].
    apply in_remove in H. right. apply IH. tauto.
  - intros [H|H]; [now left|].
    destruct (eq_dec y x) as [E|E]; [now left|].
    right. apply in_in_remove; [congruence|]. now apply IH.
Qed.

Lemma NoDup_remove_elt (l : list A) (x : A) :
  NoDup l -> NoDup (remove eq_dec x l).
Proof.
  induction 1 as [|y l Hy Hl IH]; simpl; [constructor|].
  destruct (eq_dec x y); [exact IH|].
  constructor; [|exact IH]. intros H. apply in_remove in H. tauto.
Qed.

Lemma firsts_NoDup (l : list A) : NoDup (Py.firsts eq_dec l).
Proof.
  induction l as [|y l IH]; simpl; constructor.
  - apply remove_In.
  - now apply NoDup_remove_elt.
Qed.

Lemma firsts_snoc (l : list A) (k : A) :
  Py.firsts eq_dec (l ++ [k])
  = if in_dec eq_dec k l then Py.firsts eq_dec l
    else Py.firsts eq_dec l ++ [k].
Proof.
  induction l as [|x l IH]; simpl; [reflexivity|].
  rewrite IH. destruct (in_dec eq_dec k l) as [Hin|Hin].
  - destruct (eq_dec x k); reflexivity.
  - rewrite remove_app. simpl.
    destruct (eq_dec x k) as [E|E].
    + now rewrite app_nil_r.
    + reflexivity.
Qed.

End Firsts.

(** *** The loop of [_group_objects_by_shaders] *)

Lemma option_Z_eqb_eq (x y : option Z) : option_Z_eqb x y = true <-> x = y.
Proof.
  unfold option_Z_eqb. destruct (option_Z_eq_dec x y); split; congruence.
Qed.

Lemma existsb_option_Z (k : option Z) (l : list (option Z)) :
  existsb (option_Z_eqb k) l = true <-> In k l.
Proof.
  rewrite existsb_exists. split.
  - intros (x & Hx & E). apply option_Z_eqb_eq in E. now subst.
  - intros H. exists k. split; [exact H|]. now apply option_Z_eqb_eq.
Qed.

Lemma update_at_map_index (F : option Z -> Group) (g : Group -> Group)
      (k : option Z) (ks : list (option Z)) :
  In k ks -> NoDup ks ->
  update_at (map F ks) (Py.index option_Z_eqb k ks) g
  = map (fun k' => if option_Z_eqb k k' then g (F k') else F k') ks.
Proof.
  induction ks as [|y ks IH]; intros Hin Hnd; [contradiction|].
  simpl. inversion Hnd as [|? ? Hy Hks]; subst.
  destruct (option_Z_eqb k y) eqn:E.
  - apply option_Z_eqb_eq in E. subst y. f_equal.
    apply map_ext_in. intros a Ha.
    destruct (option_Z_eqb k a) eqn:E'; [|reflexivity].
    apply option_Z_eqb_eq in E'. subst a. contradiction.
  - f_equal. apply IH; [|exact Hks].
    destruct Hin as [Hin|Hin]; [|exact Hin].
    subst y. assert (option_Z_eqb k k = true) by now apply option_Z_eqb_eq.
    congruence.
Qed.

Lemma group_loop (l : list (nat * DataGameObject)) :
  fold_left group_body l ([], [])
  = (groups_of l,
     Py.firsts option_Z_eq_dec (map (fun p => shader (snd p)) l)).
Proof.
  induction l as [|[ref obj] l IH] using rev_ind; [reflexivity|].
  rewrite fold_left_app, IH. simpl.
  unfold groups_of. rewrite map_app. simpl. rewrite firsts_snoc.
  set (keys := map (fun p => shader (snd p)) l).
  set (ks := Py.firsts option_Z_eq_dec keys).
  destruct (existsb (option_Z_eqb (shader obj)) ks) eqn:Ex.
  - apply existsb_option_Z in Ex.
    destruct (in_dec option_Z_eq_dec (shader obj) keys) as [Hin|Hin].
    2:{ exfalso. apply Hin. unfold ks in Ex. now apply firsts_In in Ex. }
    f_equal.
    rewrite update_at_map_index; [|exact Ex|apply firsts_NoDup].
    apply map_ext. intros k. rewrite filter_app, map_app. simpl.
    destruct (option_Z_eqb (shader obj) k) eqn:E.
    + simpl. reflexivity.
    + simpl. now rewrite app_nil_r.
  - assert (Hnin : ~ In (shader obj) ks).
    { intros H. apply existsb_option_Z in H. congruence. }
    destruct (in_dec option_Z_eq_dec (shader obj) keys) as [Hin|Hin].
    { exfalso. apply Hnin. unfold ks. now apply firsts_In. }
    f_equal. rewrite map_app. simpl. f_equal.
    + apply map_ext_in. intros k Hk. rewrite filter_app, map_app. simpl.
      destruct (option_Z_eqb (shader obj) k) eqn:E.
      * apply option_Z_eqb_eq in E. subst k. contradiction.
      * simpl. now rewrite app_nil_r.
    + rewrite filter_app, map_app. simpl.
      assert (E : option_Z_eqb (shader obj) (shader obj) = true)
        by now apply option_Z_eqb_eq.
      rewrite E. simpl.
      assert (Hf : filter (fun p => option_Z_eqb (shader (snd p)) (shader obj)) l
                   = []).
      { clear - Hin. subst keys. induction l as [|p l IHl]; [reflexivity|].
        simpl in *.
        destruct (option_Z_eqb (shader (snd p)) (shader obj)) eqn:E'.
        - apply option_Z_eqb_eq in E'. exfalso. apply Hin. now left.
        - apply IHl. intros H. apply Hin. now right. }
      rewrite Hf. reflexivity.
Qed.

Lemma map_snd_enumerate A (l : list A) : map snd (enumerate l) = l.
Proof.
  unfold enumerate. generalize 0%nat.
  induction l as [|x l IH]; intros a; simpl; [reflexivity|].
  f_equal. apply IH.
Qed.

Lemma group_objects_spec (objs : list DataGameObject) :
  group_objects objs = partition_by_shader objs.
Proof.
  unfold group_objects. rewrite group_loop. simpl.
  unfold groups_of, partition_by_shader, shader_keys, members.
  rewrite <- (map_map snd shader), map_snd_enumerate. reflexivity.
Qed.

Lemma In_combine_seq A (l : list A) :
  forall (a i : nat) (x : A),
    In (i, x) (combine (seq a (List.length l)) l)
    <-> (a <= i)%nat /\ nth_error l (i - a) = Some x.
Proof.
  induction l as [|y l IH]; intros a i x; simpl.
  - split; [contradiction|]. intros [_ H]. destruct (i - a)%nat; discriminate.
  - rewrite IH. split.
    + intros [H|[H1 H2]].
      * inversion H; subst. rewrite Nat.sub_diag. simpl. split; [lia|auto].
      * split; [lia|]. replace (i - a)%nat with (S (i - S a)) by lia.
        exact H2.
    + intros [H1 H2]. destruct (Nat.eq_dec a i) as [E|E].
      * subst. rewrite Nat.sub_diag in H2. simpl in H2. left. congruence.
      * right. split; [lia|].
        replace (i - a)%nat with (S (i - S a)) in H2 by lia. exact H2.
Qed.

(** The members of a group are exactly the objects with that shader
    index. *)
Lemma members_spec (objs : list DataGameObject) (k : option Z) (i : nat) :
  In i (members objs k)
  <-> exists o, nth_error objs i = Some o /\ shader o = k.
Proof.
  unfold members. rewrite in_map_iff. split.
  - intros ([j o] & E & H). simpl in E. subst j.
    apply filter_In in H. destruct H as [H1 H2]. simpl in H2.
    apply In_combine_seq in H1. destruct H1 as [_ H1].
    rewrite Nat.sub_0_r in H1. exists o. split; [exact H1|].
    now apply option_Z_eqb_eq.
  - intros (o & H1 & H2). exists (i, o). split; [reflexivity|].
    apply filter_In. split.
    + apply In_combine_seq. rewrite Nat.sub_0_r. split; [lia|exact H1].
    + simpl. now apply option_Z_eqb_eq.
Qed.

Lemma filter_combine_seq_sorted A (f : nat * A -> bool) (l : list A) :
  forall a,
    StronglySorted lt
      (map fst (filter f (combine (seq a (List.length l)) l)))
    /\ Forall (le a) (map fst (filter f (combine (seq a (List.length l)) l))).
Proof.
  induction l as [|x l IH]; intros a; simpl.
  - split; constructor.
  - destruct (IH (S a)) as [H1 H2]. destruct (f (a, x)); simpl.
    + split.
      * constructor; [exact H1|].
        eapply Forall_impl; [|exact H2]. intros; simpl in *; lia.
      * constructor; [lia|].
        eapply Forall_impl; [|exact H2]. intros; simpl in *; lia.
    + split; [exact H1|].
      eapply Forall_impl; [|exact H2]. intros; simpl in *; lia.
Qed.

(** The members of a group are listed in declaration order. *)
Lemma members_sorted (objs : list DataGameObject) (k : option Z) :
  StronglySorted lt (members objs k).
Proof. apply filter_combine_seq_sorted. Qed.

(** The keys of the groups are the shader indices in use, once each. *)
Lemma shader_keys_spec (objs : list DataGameObject) :
  NoDup (shader_keys objs)
  /\ forall k, In k (shader_keys objs)
               <-> exists o, In o objs /\ shader o = k.
Proof.
  split; [apply firsts_NoDup|]. intros k. unfold shader_keys.
  rewrite firsts_In, in_map_iff. split; intros (o & H1 & H2); exists o; auto.
Qed.

(** C5. The first call of the shader grouping returns the partition of the
    objects by shader index: the groups come in first-encounter order of
    the shader indices (not sorted), and each group holds exactly the
    objects with that index, in declaration order. The call stores the
    groups on the scene and sets the flag, and leaves the object list as it
    is. A second call returns the identical groups in the identical order
    and changes nothing; it returns the stored groups, not a new
    computation: whatever the object list has become, and for any scene
    whose flag is set, the call returns what is stored. *)
Theorem grouping_partitions_and_is_idempotent (self : DataScene) :
  shader_objects_sorted self = false ->
  let groups := partition_by_shader (objects self) in
  let self' := set_shader_objects groups self in
  _group_objects_by_shaders self = Ok (groups, self')
  /\ map fst groups
     = Py.firsts option_Z_eq_dec (map shader (objects self))
  /\ (forall k ms,
         In (k, ms) groups ->
         StronglySorted lt ms
         /\ forall i, In i ms
                      <-> exists o, nth_error (objects self) i = Some o
                                    /\ shader o = k)
  /\ shader_objects_sorted self' = true
  /\ shader_objects self' = Some groups
  /\ objects self' = objects self
  /\ _group_objects_by_shaders self' = Ok (groups, self')
  /\ (forall objs,
         _group_objects_by_shaders (set_objects objs self')
         = Ok (groups, set_objects objs self'))
  /\ (forall (d : DataScene) (stored : list Group),
         shader_objects_sorted d = true ->
         shader_objects d = Some stored ->
         _group_objects_by_shaders d = Ok (stored, d)).
Proof.
  intros Hf groups self'.
  split.
  { unfold _group_objects_by_shaders. rewrite Hf.
    rewrite group_objects_spec. reflexivity. }
  split.
  { unfold groups, partition_by_shader, shader_keys. rewrite map_map.
    simpl. apply map_id. }
  split.
  { intros k ms H. unfold groups, partition_by_shader in H.
    apply in_map_iff in H. destruct H as (k' & E & _).
    inversion E; subst. split; [apply members_sorted|].
    intros i. apply members_spec. }
  split; [reflexivity|]. split; [reflexivity|]. split; [reflexivity|].
  split; [reflexivity|]. split; [intros objs; reflexivity|].
  intros d stored Hs Hm. unfold _group_objects_by_shaders.
  now rewrite Hs, Hm.
Qed.

Lemma grouping_partitions_and_is_idempotent_witness :
  _group_objects_by_shaders
    (set_objects
       [mkDataGameObject (Some 1) None None None None;
        mkDataGameObject (Some 0) None None None None;
        mkDataGameObject (Some 1) None None None None]
       (DataScene_new engine0 swapped_scene))
  = Ok ([(Some 1, [0; 2]%nat); (Some 0, [1%nat])],
        set_shader_objects [(Some 1, [0; 2]%nat); (Some 0, [1%nat])]
          (set_objects
             [mkDataGameObject (Some 1) None None None None;
              mkDataGameObject (Some 0) None None None None;
              mkDataGameObject (Some 1) None None None None]
             (DataScene_new engine0 swapped_scene))).
Proof.
  exact (proj1 (@grouping_partitions_and_is_idempotent
                  (set_objects
                     [mkDataGameObject (Some 1) None None None None;
                      mkDataGameObject (Some 0) None None None None;
                      mkDataGameObject (Some 1) None None None None]
                     (DataScene_new engine0 swapped_scene)) eq_refl)).
Defined.

(** *** Sums *)

Lemma sum_pos (l : list Z) :
  l <> [] -> Forall (fun x => 0 < x) l -> 0 < Py.sum l.
Proof.
  intros Hne H. induction H as [|x l Hx Hl IH]; [congruence|].
  rewrite sum_cons. destruct l as [|y l].
  - unfold Py.sum. simpl. lia.
  - assert (0 < Py.sum (y :: l)) by (apply IH; discriminate). lia.
Qed.

(** *** Layout of the packed meshes *)

Section Packing.

Variable mesh_size : nat -> Z.

Lemma place_app (l1 l2 : list nat) (off : Z) :
  place mesh_size off (l1 ++ l2)
  = place mesh_size off l1
    ++ place mesh_size (off + Py.sum (map mesh_size l1)) l2.
Proof.
  revert off. induction l1 as [|a l1 IH]; intros off.
  - simpl. replace (off + Py.sum []) with off; [reflexivity|].
    unfold Py.sum. simpl. lia.
  - simpl. rewrite IH, sum_cons.
    replace (off + mesh_size a + Py.sum (map mesh_size l1))
      with (off + (mesh_size a + Py.sum (map mesh_size l1))) by lia.
    reflexivity.
Qed.

Lemma place_meshes (l : list nat) (off : Z) :
  map dm_mesh (place mesh_size off l) = l.
Proof.
  revert off. induction l as [|a l IH]; intros off; simpl;
    [reflexivity|now rewrite IH].
Qed.

Lemma place_nth (l : list nat) :
  forall (off : Z) (i : nat) (dm : DataMesh),
    nth_error (place mesh_size off l) i = Some dm ->
    base_offset dm = off + Py.sum (map mesh_size (firstn i l))
    /\ nth_error l i = Some (dm_mesh dm).
Proof.
  induction l as [|a l IH]; intros off i dm H; simpl in H.
  - destruct i; discriminate.
  - destruct i as [|i]; simpl in *.
    + inversion H; subst. simpl. unfold Py.sum. simpl. split; [lia|auto].
    + apply IH in H. destruct H as [H1 H2]. rewrite sum_cons.
      split; [lia|exact H2].
Qed.

Lemma sum_firstn_nonneg (l : list nat) :
  forall n,
    (forall a, In a l -> 0 < mesh_size a) ->
    0 <= Py.sum (map mesh_size (firstn n l)).
Proof.
  induction l as [|a l IH]; intros n Hpos.
  - destruct n; unfold Py.sum; simpl; lia.
  - destruct n as [|n]; [unfold Py.sum; simpl; lia|].
    simpl. rewrite sum_cons.
    assert (0 < mesh_size a) by (apply Hpos; now left).
    assert (0 <= Py.sum (map mesh_size (firstn n l))).
    { apply IH. intros b Hb. apply Hpos. now right. }
    lia.
Qed.

Lemma sum_firstn_lt (l : list nat) :
  forall i j,
    (forall a, In a l -> 0 < mesh_size a) ->
    (i < j)%nat -> (i < List.length l)%nat ->
    Py.sum (map mesh_size (firstn i l)) < Py.sum (map mesh_size (firstn j l)).
Proof.
  induction l as [|a l IH]; intros i j Hpos Hij Hi; simpl in Hi; [lia|].
  destruct j as [|j]; [lia|].
  assert (Ha : 0 < mesh_size a) by (apply Hpos; now left).
  assert (Hl : forall b, In b l -> 0 < mesh_size b)
    by (intros b Hb; apply Hpos; now right).
  destruct i as [|i]; simpl; rewrite ?sum_cons.
  - pose proof (@sum_firstn_nonneg l j Hl). unfold Py.sum at 1. simpl. lia.
  - assert (Py.sum (map mesh_size (firstn i l))
            < Py.sum (map mesh_size (firstn j l))).
    { apply IH; [exact Hl|lia|lia]. }
    lia.
Qed.

Lemma place_increasing (l : list nat) (off : Z) (i j : nat)
      (di dj : DataMesh) :
  (forall a, In a l -> 0 < mesh_size a) ->
  (i < j)%nat ->
  nth_error (place mesh_size off l) i = Some di ->
  nth_error (place mesh_size off l) j = Some dj ->
  base_offset di < base_offset dj.
Proof.
  intros Hpos Hij Hi Hj.
  apply place_nth in Hi. apply place_nth in Hj.
  destruct Hi as [Hi Hi']. destruct Hj as [Hj Hj'].
  rewrite Hi, Hj.
  assert (Hlt : (i < List.length l)%nat).
  { apply nth_error_Some. congruence. }
  pose proof (@sum_firstn_lt l i j Hpos Hij Hlt). lia.
Qed.

Lemma existsb_nat_In (a : nat) (l : list nat) :
  existsb (Nat.eqb a) l = true <-> In a l.
Proof.
  rewrite existsb_exists. split.
  - intros (x & Hx & E). apply Nat.eqb_eq in E. now subst.
  - intros H. exists a. split; [exact H|apply Nat.eqb_refl].
Qed.

(** The loop of [_setup_objects], started after a prefix [pre] of the
    references has been processed. *)
Lemma pack_loop (ms : list (option nat)) (objs : list GameObject) :
  forall (refs pre : list (option nat)) (acc : PackLocals),
    Forall2 (fun obj r => getitem_opt ms (obj_mesh obj) = Ok r) objs refs ->
    mesh_cache_lookup acc = distinct_meshes pre ->
    data_meshes acc = place mesh_size 0 (distinct_meshes pre) ->
    staging_mesh_offset acc = Py.sum (map mesh_size (distinct_meshes pre)) ->
    fold_result objs (pack_body mesh_size ms) acc
    = Ok (mkPackLocals
            (Py.sum (map mesh_size (distinct_meshes (pre ++ refs))))
            (distinct_meshes (pre ++ refs))
            (place mesh_size 0 (distinct_meshes (pre ++ refs)))
            (data_objects acc ++ map DataGameObject_init objs)).
Proof.
  induction objs as [|obj objs IH]; intros refs pre acc HF Hl Hd Ho.
  - inversion HF; subst. simpl. rewrite !app_nil_r.
    destruct acc; simpl in *. now subst.
  - inversion HF as [|? r ? refs' Hr HF']; subst. simpl.
    unfold pack_body at 1. rewrite Hr.
    assert (Hsnoc : distinct_meshes (pre ++ [r])
                    = match r with
                      | Some a =>
                          if in_dec Nat.eq_dec a (somes pre)
                          then distinct_meshes pre
                          else distinct_meshes pre ++ [a]
                      | None => distinct_meshes pre
                      end).
    { unfold distinct_meshes, somes. rewrite flat_map_app. simpl.
      destruct r as [a|]; [|now rewrite app_nil_r].
      apply firsts_snoc. }
    replace (pre ++ r :: refs') with ((pre ++ [r]) ++ refs')
      by now rewrite <- app_assoc.
    match goal with
    | |- fold_result objs _ ?acc1 = _ =>
        rewrite (IH refs' (pre ++ [r]) acc1 HF')
    end.
    + simpl. f_equal. f_equal.
      destruct r as [a|]; [|now rewrite <- app_assoc].
      destruct (negb (existsb (Nat.eqb a) (mesh_cache_lookup acc)));
        simpl; now rewrite <- app_assoc.
    + rewrite Hsnoc. destruct r as [a|]; simpl; [|exact Hl].
      destruct (existsb (Nat.eqb a) (mesh_cache_lookup acc)) eqn:Ex; simpl.
      * apply existsb_nat_In in Ex. rewrite Hl in Ex.
        apply firsts_In in Ex.
        destruct (in_dec Nat.eq_dec a (somes pre)); [exact Hl|contradiction].
      * destruct (in_dec Nat.eq_dec a (somes pre)) as [Hin|Hin].
        { exfalso. apply (firsts_In Nat.eq_dec) in Hin.
          fold (distinct_meshes pre) in Hin. rewrite <- Hl in Hin.
          apply existsb_nat_In in Hin. congruence. }
        now rewrite Hl.
    + rewrite Hsnoc. destruct r as [a|]; simpl; [|exact Hd].
      destruct (existsb (Nat.eqb a) (mesh_cache_lookup acc)) eqn:Ex; simpl.
      * apply existsb_nat_In in Ex. rewrite Hl in Ex.
        apply firsts_In in Ex.
        destruct (in_dec Nat.eq_dec a (somes pre)); [exact Hd|contradiction].
      * destruct (in_dec Nat.eq_dec a (somes pre)) as [Hin|Hin].
        { exfalso. apply (firsts_In Nat.eq_dec) in Hin.
          fold (distinct_meshes pre) in Hin. rewrite <- Hl in Hin.
          apply existsb_nat_In in Hin. congruence. }
        rewrite place_app, Hd, Ho. simpl. reflexivity.
    + rewrite Hsnoc. destruct r as [a|]; simpl; [|exact Ho].
      destruct (existsb (Nat.eqb a) (mesh_cache_lookup acc)) eqn:Ex; simpl.
      * apply existsb_nat_In in Ex. rewrite Hl in Ex.
        apply firsts_In in Ex.
        destruct (in_dec Nat.eq_dec a (somes pre)); [exact Ho|contradiction].
      * destruct (in_dec Nat.eq_dec a (somes pre)) as [Hin|Hin].
        { exfalso. apply (firsts_In Nat.eq_dec) in Hin.
          fold (distinct_meshes pre) in Hin. rewrite <- Hl in Hin.
          apply existsb_nat_In in Hin. congruence. }
        rewrite map_app, sum_app, Ho. unfold Py.sum at 3. simpl. lia.
Qed.

Lemma pack_meshes_spec (s : Scene) (refs : list (option nat)) :
  resolves s refs ->
  pack_meshes mesh_size s
  = Ok (mkPackLocals
          (Py.sum (map mesh_size (distinct_meshes refs)))
          (distinct_meshes refs)
          (place mesh_size 0 (distinct_meshes refs))
          (map DataGameObject_init (scene_objects s))).
Proof.
  intros H. unfold pack_meshes.
  apply (@pack_loop (scene_meshes s) (scene_objects s) refs []
           (mkPackLocals 0 [] [] []) H); reflexivity.
Qed.

End Packing.

Lemma buffer_size_last (log : list VkCall) (size usage : Z) (h : handle) :
  buffer_size (log ++ [create_buffer size usage h]) h = size.
Proof.
  unfold buffer_size. rewrite fold_left_app. simpl.
  now rewrite Nat.eqb_refl.
Qed.

Lemma _setup_objects_run (mesh_size : nat -> Z) (self : DataScene)
      (packed : PackLocals) (v : Vk) :
  pack_meshes mesh_size (scene self) = Ok packed ->
  let total := staging_mesh_offset packed in
  let staging_buffer := next_handle v in
  let staging_alloc := mkAlloc (S (next_handle v)) total in
  let mesh_buffer := S (S (next_handle v)) in
  let mesh_alloc := mkAlloc (S (S (S (next_handle v)))) total in
  let cmd := setup_command_buffer (engine self) in
  _setup_objects mesh_size self v
  = (mkVk (S (S (S (S (next_handle v)))))
       (calls v
        ++ [create_buffer total vk.BUFFER_USAGE_TRANSFER_SRC_BIT
              staging_buffer;
            mem_alloc staging_buffer
              (Z.lor vk.MEMORY_PROPERTY_HOST_COHERENT_BIT
                     vk.MEMORY_PROPERTY_HOST_VISIBLE_BIT) staging_alloc]
        ++ map (fun dm =>
                  alloc_write_bytes staging_alloc (base_offset dm)
                    (dm_mesh dm)) (data_meshes packed)
        ++ [create_buffer total
              (Z.lor (Z.lor vk.BUFFER_USAGE_INDEX_BUFFER_BIT
                            vk.BUFFER_USAGE_VERTEX_BUFFER_BIT)
                     vk.BUFFER_USAGE_TRANSFER_DST_BIT) mesh_buffer;
            mem_alloc mesh_buffer vk.MEMORY_PROPERTY_DEVICE_LOCAL_BIT
              mesh_alloc;
            begin_command_buffer cmd;
            copy_buffer cmd staging_buffer mesh_buffer total;
            end_command_buffer cmd;
            submit_setup_command true;
            destroy_buffer staging_buffer;
            mem_free_alloc staging_alloc]),
     Ok (set_objects (data_objects packed)
           (set_meshes mesh_alloc mesh_buffer (data_meshes packed) self))).
Proof.
  intros Hp. simpl.
  unfold _setup_objects, bind, lift. rewrite Hp.
  unfold _setup_objects_staging, bind, create, mem_alloc_buffer. simpl.
  rewrite buffer_size_last.
  rewrite (for_each_call
             (fun dm => alloc_write_bytes
                          (mkAlloc (S (next_handle v))
                             (staging_mesh_offset packed))
                          (base_offset dm) (dm_mesh dm))).
  unfold ret. simpl.
  unfold _setup_objects_resources, bind, create, mem_alloc_buffer, call, ret.
  simpl. rewrite buffer_size_last. simpl.
  repeat rewrite <- app_assoc. simpl. reflexivity.
Qed.

(** C4, as stated, fails: when the first of two distinct meshes has no
    bytes, both meshes get the base offset 0, so the offsets do not
    increase strictly. *)
Lemma zero_size_mesh_repeats_offset :
  exists packed,
    pack_meshes (fun _ => 0) two_mesh_scene = Ok packed
    /\ map dm_mesh (data_meshes packed) = [5; 6]%nat
    /\ map base_offset (data_meshes packed) = [0; 0]
    /\ ~ offsets_strictly_increase.
Proof.
  eexists. split; [reflexivity|]. split; [reflexivity|].
  split; [reflexivity|]. intros H.
  specialize (H (fun _ => 0) two_mesh_scene _ 0%nat 1%nat _ _ eq_refl
                (Nat.lt_0_1) eq_refl eq_refl).
  simpl in H. lia.
Qed.

(** C4, amended. For every scene whose objects reference meshes that
    resolve, mesh packing deduplicates by identity: the packed list holds
    each distinct mesh referenced by an object exactly once, in
    first-reference order, whatever the number of objects that reference
    it; the base offset of a packed mesh is the sum of the sizes of the
    meshes packed before it, so the offsets increase strictly in
    first-reference order whenever every packed mesh has a positive size;
    and the staging buffer and the device buffer are both created with the
    sum of the sizes of the distinct meshes. *)
Theorem mesh_packing_deduplicates
        (mesh_size : nat -> Z) (self : DataScene)
        (refs : list (option nat)) (v : Vk) :
  resolves (scene self) refs ->
  exists v' self' staging,
    _setup_objects mesh_size self v = (v', Ok self')
    /\ map dm_mesh (meshes self') = distinct_meshes refs
    /\ NoDup (map dm_mesh (meshes self'))
    /\ (forall a, In a (map dm_mesh (meshes self')) <-> In (Some a) refs)
    /\ (forall i dm,
           nth_error (meshes self') i = Some dm ->
           base_offset dm
           = Py.sum (map mesh_size (firstn i (distinct_meshes refs))))
    /\ ((forall a, In (Some a) refs -> 0 < mesh_size a) ->
        forall i j di dj,
          (i < j)%nat ->
          nth_error (meshes self') i = Some di ->
          nth_error (meshes self') j = Some dj ->
          base_offset di < base_offset dj)
    /\ In (create_buffer (Py.sum (map mesh_size (distinct_meshes refs)))
             vk.BUFFER_USAGE_TRANSFER_SRC_BIT staging) (calls v')
    /\ In (create_buffer (Py.sum (map mesh_size (distinct_meshes refs)))
             (Z.lor (Z.lor vk.BUFFER_USAGE_INDEX_BUFFER_BIT
                           vk.BUFFER_USAGE_VERTEX_BUFFER_BIT)
                    vk.BUFFER_USAGE_TRANSFER_DST_BIT)
             (meshes_buffer self')) (calls v').
Proof.
  intros Hres.
  pose proof (pack_meshes_spec mesh_size Hres) as Hp.
  pose proof (_setup_objects_run mesh_size self v Hp) as Hrun.
  simpl in Hrun.
  assert (Hsome : forall a, In a (distinct_meshes refs) <-> In (Some a) refs).
  { intros a. unfold distinct_meshes. rewrite firsts_In.
    unfold somes. rewrite in_flat_map. split.
    - intros ([b|] & Hb & Ha); simpl in Ha; [|contradiction].
      destruct Ha as [Ha|[]]. now subst.
    - intros H. exists (Some a). split; [exact H|now left]. }
  eexists. eexists. eexists. split; [exact Hrun|]. simpl.
  rewrite place_meshes.
  split; [reflexivity|].
  split; [apply firsts_NoDup|].
  split; [exact Hsome|].
  split.
  { intros i dm H. apply place_nth in H. destruct H as [H _].
    rewrite H. lia. }
  split.
  { intros Hpos i j di dj Hij Hi Hj.
    eapply place_increasing; [|exact Hij|exact Hi|exact Hj].
    intros a Ha. apply Hpos. now apply Hsome. }
  split.
  - apply in_or_app. right. left. reflexivity.
  - apply in_or_app. right. right. right.
    apply in_or_app. right. left. reflexivity.
Qed.

Lemma mesh_packing_deduplicates_witness :
  exists v' self' staging,
    _setup_objects mesh100 (DataScene_new engine0 two_mesh_scene) vk0
    = (v', Ok self')
    /\ map dm_mesh (meshes self') = [5; 6]%nat
    /\ NoDup (map dm_mesh (meshes self'))
    /\ (forall a, In a (map dm_mesh (meshes self'))
                  <-> In (Some a) [Some 5; Some 6; Some 5]%nat)
    /\ (forall i dm,
           nth_error (meshes self') i = Some dm ->
           base_offset dm = Py.sum (map mesh100 (firstn i [5; 6]%nat)))
    /\ ((forall a, In (Some a) [Some 5; Some 6; Some 5]%nat -> 0 < mesh100 a) ->
        forall i j di dj,
          (i < j)%nat ->
          nth_error (meshes self') i = Some di ->
          nth_error (meshes self') j = Some dj ->
          base_offset di < base_offset dj)
    /\ In (create_buffer 200 vk.BUFFER_USAGE_TRANSFER_SRC_BIT staging)
          (calls v')
    /\ In (create_buffer 200
             (Z.lor (Z.lor vk.BUFFER_USAGE_INDEX_BUFFER_BIT
                           vk.BUFFER_USAGE_VERTEX_BUFFER_BIT)
                    vk.BUFFER_USAGE_TRANSFER_DST_BIT)
             (meshes_buffer self')) (calls v').
Proof.
  apply (@mesh_packing_deduplicates mesh100
           (DataScene_new engine0 two_mesh_scene)
           [Some 5; Some 6; Some 5]%nat vk0).
  unfold resolves. simpl. repeat constructor.
Defined.

(** *** The frame recorder *)

Section Record.

Variable indices_offset : DataMesh -> Z.
Variable indices_type : DataMesh -> Z.
Variable indices_count : DataMesh -> Z.
Variable attribute_offsets_len : DataMesh -> nat.
Variable attribute_offsets_for_shader :
  DataMesh -> DataShader -> result (list Z).

Let draw := draw_mesh indices_offset indices_type indices_count
              attribute_offsets_len attribute_offsets_for_shader.
Let body := record_body indices_offset indices_type indices_count
              attribute_offsets_len attribute_offsets_for_shader.

Lemma select_shader_run self st o v v' st1 :
  select_shader self st o v = (v', Ok st1) ->
  v' = v /\ pipeline_index st1 = pipeline_index st.
Proof.
  unfold select_shader, bind, lift, ret.
  destruct (is_some (shader o)
            && negb (option_Z_eqb (current_shader_index st) (shader o))).
  - destruct (getitem_opt (shaders self) (shader o)); intros H;
      inversion H; subst; auto.
  - intros H. inversion H; subst; auto.
Qed.

Lemma select_pipeline_run self cmd st o v v' st2 :
  select_pipeline self cmd st o v = (v', Ok st2) ->
  exists pb,
    calls v' = calls v ++ pb
    /\ pipeline_index st2 = bound_after (pipeline_index st) [o]
    /\ match pipeline o with
       | Some p =>
           if option_Z_eqb (pipeline_index st) (Some p) then pb = []
           else exists h,
               getitem (pipelines self) p = Ok h
               /\ pb = [bind_pipeline cmd h]
       | None => pb = []
       end.
Proof.
  unfold select_pipeline, bind, lift, ret, call, bound_after. simpl.
  destruct (pipeline o) as [p|] eqn:Hp; simpl.
  - destruct (option_Z_eqb (pipeline_index st) (Some p)) eqn:E; simpl.
    + intros H. inversion H; subst. exists []. rewrite app_nil_r.
      apply option_Z_eqb_eq in E. auto.
    + destruct (getitem (pipelines self) p) as [h|e] eqn:Hg;
        intros H; inversion H; subst. simpl.
      exists [bind_pipeline cmd h]. split; [reflexivity|].
      split; [reflexivity|]. exists h. auto.
  - intros H. inversion H; subst. exists []. rewrite app_nil_r. auto.
Qed.

Lemma bind_sets_run cmd st o v v' :
  bind_sets cmd st o v = (v', Ok tt) ->
  exists db,
    calls v' = calls v ++ db
    /\ match descriptor_sets o with
       | Some sets => exists layout, db = [bind_descriptor_sets cmd layout sets]
       | None => db = []
       end.
Proof.
  unfold bind_sets, call, ret, raise.
  destruct (descriptor_sets o) as [sets|].
  - destruct (current_shader st) as [sh|]; intros H; inversion H; subst.
    simpl. eexists. split; [reflexivity|]. eexists. reflexivity.
  - intros H. inversion H; subst. exists []. now rewrite app_nil_r.
Qed.

Lemma draw_mesh_run self cmd o v v' :
  draw self cmd o v = (v', Ok tt) ->
  exists mb,
    calls v' = calls v ++ mb /\ forallb is_mesh_call mb = true.
Proof.
  unfold draw, draw_mesh, bind, lift, call, ret.
  destruct (mesh o) as [i|].
  - destruct (getitem_opt (meshes self) (Some i)) as [m|e];
      [|intros H; inversion H].
    destruct (getitem_opt (shaders self) (shader o)) as [sh|e];
      [|intros H; inversion H].
    destruct (attribute_offsets_for_shader m sh) as [offs|e];
      [|intros H; inversion H].
    simpl. intros H. inversion H; subst. simpl.
    eexists. rewrite <- !app_assoc. split; [reflexivity|]. reflexivity.
  - intros H. inversion H; subst. exists []. now rewrite app_nil_r.
Qed.

Lemma record_body_run self cmd st o v v' st' :
  body self cmd st o v = (v', Ok st') ->
  exists seg,
    calls v' = calls v ++ seg
    /\ segment_ok self cmd (pipeline_index st) o seg
    /\ pipeline_index st' = bound_after (pipeline_index st) [o].
Proof.
  unfold body, record_body. unfold bind at 1.
  destruct (select_shader self st o v) as [v1 [st1|e]] eqn:H1;
    [|intros H; inversion H].
  apply select_shader_run in H1. destruct H1 as [-> Hst1].
  unfold bind at 1.
  destruct (select_pipeline self cmd st1 o v) as [v2 [st2|e]] eqn:H2;
    [|intros H; inversion H].
  apply select_pipeline_run in H2. destruct H2 as (pb & Hc2 & Hst2 & Hpb).
  unfold bind at 1.
  destruct (bind_sets cmd st2 o v2) as [v3 [[]|e]] eqn:H3;
    [|intros H; inversion H].
  apply bind_sets_run in H3. destruct H3 as (db & Hc3 & Hdb).
  unfold bind at 1.
  fold draw.
  destruct (draw self cmd o v3) as [v4 [[]|e]] eqn:H4;
    [|intros H; inversion H].
  apply draw_mesh_run in H4. destruct H4 as (mb & Hc4 & Hmb).
  unfold ret. intros H. inversion H; subst.
  exists (pb ++ db ++ mb). split.
  { rewrite Hc4, Hc3, Hc2, <- !app_assoc. reflexivity. }
  rewrite Hst1 in *. split; [|exact Hst2].
  exists pb, db, mb. auto.
Qed.

Lemma record_loop_run self cmd objs :
  forall st v v' st',
    for_fold objs (body self cmd) st v = (v', Ok st') ->
    exists segs,
      calls v' = calls v ++ List.concat segs
      /\ segments_ok self cmd (pipeline_index st) objs segs.
Proof.
  induction objs as [|o objs IH]; intros st v v' st' H; simpl in H.
  - inversion H; subst. exists []. simpl. now rewrite app_nil_r.
  - unfold bind in H.
    destruct (body self cmd st o v) as [v1 [st1|e]] eqn:Hb;
      [|inversion H].
    apply record_body_run in Hb. destruct Hb as (seg & Hc & Hseg & Hst).
    apply IH in H. destruct H as (segs & Hc' & Hsegs).
    exists (seg :: segs). split.
    + simpl. rewrite Hc', Hc, <- app_assoc. reflexivity.
    + cbn [segments_ok]. split; [exact Hseg|]. rewrite <- Hst. exact Hsegs.
Qed.

End Record.

Lemma bound_after_app prev l1 l2 :
  bound_after prev (l1 ++ l2) = bound_after (bound_after prev l1) l2.
Proof. unfold bound_after. apply fold_left_app. Qed.

Lemma segments_nth self cmd objs :
  forall prev segs,
    segments_ok self cmd prev objs segs ->
    List.length segs = List.length objs
    /\ forall k o seg,
        nth_error objs k = Some o ->
        nth_error segs k = Some seg ->
        segment_ok self cmd (bound_after prev (firstn k objs)) o seg.
Proof.
  induction objs as [|o objs IH]; intros prev segs H.
  - destruct segs; [|contradiction]. split; [reflexivity|].
    intros k o seg Hk. destruct k; discriminate.
  - destruct segs as [|seg segs]; [contradiction|].
    destruct H as [Hseg Hrest]. apply IH in Hrest.
    destruct Hrest as [Hlen Hnth]. split; [simpl; now rewrite Hlen|].
    intros k o' seg' Hk Hs. destruct k as [|k].
    + simpl in Hk, Hs. inversion Hk; inversion Hs; subst. exact Hseg.
    + simpl in Hk, Hs. rewrite firstn_cons.
      change (o :: firstn k objs) with ([o] ++ firstn k objs).
      rewrite bound_after_app. now apply Hnth.
Qed.

Lemma mesh_calls_are_not_binds (mb : list VkCall) :
  forallb is_mesh_call mb = true ->
  filter is_pipeline_bind mb = [] /\ filter is_descriptor_bind mb = [].
Proof.
  induction mb as [|c mb IH]; simpl; [auto|].
  intros H. apply andb_true_iff in H. destruct H as [Hc Hmb].
  destruct (IH Hmb) as [H1 H2].
  destruct c; simpl in *; try discriminate; auto.
Qed.

Lemma segment_binds self cmd prev o seg :
  segment_ok self cmd prev o seg ->
  (forall p, pipeline o = Some p -> prev <> Some p ->
             exists h, getitem (pipelines self) p = Ok h
                       /\ filter is_pipeline_bind seg = [bind_pipeline cmd h])
  /\ (pipeline o = None \/ pipeline o = prev ->
      filter is_pipeline_bind seg = [])
  /\ (forall sets, descriptor_sets o = Some sets ->
                   exists layout,
                     filter is_descriptor_bind seg
                     = [bind_descriptor_sets cmd layout sets])
  /\ (descriptor_sets o = None -> filter is_descriptor_bind seg = []).
Proof.
  intros (pb & db & mb & -> & Hpb & Hdb & Hmb).
  destruct (mesh_calls_are_not_binds _ Hmb) as [Hm1 Hm2].
  rewrite !filter_app, Hm1, Hm2, !app_nil_r.
  assert (Hdp : filter is_pipeline_bind db = []).
  { destruct (descriptor_sets o); [destruct Hdb as (lay & ->)|subst];
      reflexivity. }
  assert (Hpd : filter is_descriptor_bind pb = []).
  { destruct (pipeline o) as [p|]; [|subst; reflexivity].
    destruct (option_Z_eqb prev (Some p)); [subst; reflexivity|].
    destruct Hpb as (h & _ & ->). reflexivity. }
  rewrite Hdp, Hpd, app_nil_r. simpl.
  split; [|split; [|split]].
  - intros p Hp Hne. rewrite Hp in Hpb.
    destruct (option_Z_eqb prev (Some p)) eqn:E.
    + apply option_Z_eqb_eq in E. contradiction.
    + destruct Hpb as (h & Hg & ->). exists h. auto.
  - intros [Hn|He].
    + rewrite Hn in Hpb. now subst.
    + destruct (pipeline o) as [p|]; [|now subst].
      assert (E : option_Z_eqb prev (Some p) = true)
        by (apply option_Z_eqb_eq; congruence).
      rewrite E in Hpb. now subst.
  - intros sets Hs. rewrite Hs in Hdb. destruct Hdb as (lay & ->).
    exists lay. reflexivity.
  - intros Hn. rewrite Hn in Hdb. now subst.
Qed.

(** C6. When [record] completes for a framebuffer index, it has emitted,
    between the begin and end commands, one segment of commands per
    object, in the compiled declaration order. The segment of an object
    holds a pipeline bind exactly when the object has a pipeline index
    that differs from the one bound before it (the index of the last
    earlier object that has one), and then it binds the pipeline stored at
    that index; so a contiguous run of one pipeline binds once and an
    object met again after another pipeline binds again. The segment holds
    a descriptor-set bind, of the sets of the object, exactly when the
    descriptor-set list of the object is present. *)
Theorem record_binds_on_change
        (indices_offset indices_type indices_count : DataMesh -> Z)
        (attribute_offsets_len : DataMesh -> nat)
        (attribute_offsets_for_shader :
           DataMesh -> DataShader -> result (list Z))
        (self : DataScene) (framebuffer_index : Z) (v v' : Vk) :
  record indices_offset indices_type indices_count attribute_offsets_len
    attribute_offsets_for_shader self framebuffer_index v = (v', Ok tt) ->
  exists cmd framebuffer segs,
    getitem (render_commands self) framebuffer_index = Ok cmd
    /\ calls v'
       = calls v
         ++ [begin_command_buffer cmd;
             begin_render_pass cmd framebuffer
               (swapchain_extent (engine self))]
         ++ List.concat segs
         ++ [end_render_pass cmd; end_command_buffer cmd]
    /\ List.length segs = List.length (objects self)
    /\ forall k o seg,
        nth_error (objects self) k = Some o ->
        nth_error segs k = Some seg ->
        let prev := bound_after None (firstn k (objects self)) in
        (forall p, pipeline o = Some p -> prev <> Some p ->
                   exists h,
                     getitem (pipelines self) p = Ok h
                     /\ filter is_pipeline_bind seg = [bind_pipeline cmd h])
        /\ (pipeline o = None \/ pipeline o = prev ->
            filter is_pipeline_bind seg = [])
        /\ (forall sets, descriptor_sets o = Some sets ->
                         exists layout,
                           filter is_descriptor_bind seg
                           = [bind_descriptor_sets cmd layout sets])
        /\ (descriptor_sets o = None ->
            filter is_descriptor_bind seg = []).
Proof.
  unfold record. unfold bind at 1. unfold lift at 1.
  destruct (getitem (render_commands self) framebuffer_index) as [cmd|e];
    [|intros H; inversion H].
  unfold bind at 1. unfold lift at 1.
  destruct (getitem (framebuffers (engine self)) framebuffer_index)
    as [fb|e]; [|intros H; inversion H].
  unfold bind at 1. unfold call at 1. unfold bind at 1. unfold call at 1.
  unfold bind at 1.
  match goal with
  | |- context [for_fold (objects self) ?b ?st ?w] =>
      destruct (for_fold (objects self) b st w) as [v1 [st1|e]] eqn:Hloop
  end; [|intros H; inversion H].
  apply record_loop_run in Hloop. destruct Hloop as (segs & Hc & Hsegs).
  simpl in Hc, Hsegs.
  unfold bind, call. intros H. inversion H; subst; clear H.
  apply segments_nth in Hsegs. destruct Hsegs as [Hlen Hnth].
  exists cmd, fb, segs. split; [reflexivity|]. split.
  { simpl. rewrite Hc, <- !app_assoc. simpl. reflexivity. }
  split; [exact Hlen|].
  intros k o seg Hk Hs. simpl. apply segment_binds. now apply Hnth.
Qed.

Lemma record_binds_on_change_witness :
  exists cmd framebuffer segs,
    getitem (render_commands interleaved_scene) 0 = Ok cmd
    /\ calls interleaved_recorded
       = calls vk0
         ++ [begin_command_buffer cmd;
             begin_render_pass cmd framebuffer
               (swapchain_extent (engine interleaved_scene))]
         ++ List.concat segs
         ++ [end_render_pass cmd; end_command_buffer cmd]
    /\ List.length segs = List.length (objects interleaved_scene)
    /\ forall k o seg,
        nth_error (objects interleaved_scene) k = Some o ->
        nth_error segs k = Some seg ->
        let prev := bound_after None (firstn k (objects interleaved_scene)) in
        (forall p, pipeline o = Some p -> prev <> Some p ->
                   exists h,
                     getitem (pipelines interleaved_scene) p = Ok h
                     /\ filter is_pipeline_bind seg = [bind_pipeline cmd h])
        /\ (pipeline o = None \/ pipeline o = prev ->
            filter is_pipeline_bind seg = [])
        /\ (forall sets, descriptor_sets o = Some sets ->
                         exists layout,
                           filter is_descriptor_bind seg
                           = [bind_descriptor_sets cmd layout sets])
        /\ (descriptor_sets o = None ->
            filter is_descriptor_bind seg = []).
Proof.
  apply (@record_binds_on_change (fun _ => 0) (fun _ => 0) (fun _ => 0)
           (fun _ => 0%nat) (fun _ _ => Ok []) interleaved_scene 0 vk0
           interleaved_recorded).
  vm_compute. reflexivity.
Defined.

(* ===================================================================== *)
(** ** Further properties of the two modules                             *)
(* ===================================================================== *)

(** X1. [DataShader.free] can be called once: after a successful call the
    engine attribute is deleted, and a second call raises [AttributeError]
    on reading the context, before any handle is destroyed. *)
Theorem free_twice_raises (sh : Shader) (v v' w : Vk) (ds : DataShader) :
  uniforms (mapping sh) <> [] ->
  DataShader_init sh v = (v', Ok ds) ->
  exists w' ds',
    DataShader_free ds w = (w', Ok ds')
    /\ forall u, DataShader_free ds' u = (u, Raise AttributeError).
Proof.
  intros Hne H.
  destruct (DataShader_init_uniforms _ _ Hne H) as (layouts & Hl & He & _).
  eexists. eexists. split; [apply (DataShader_free_run _ w He Hl)|].
  intros u. reflexivity.
Qed.

Lemma free_twice_raises_witness :
  exists w' ds',
    DataShader_free one_block_compiled one_block_vk = (w', Ok ds')
    /\ forall u, DataShader_free ds' u = (u, Raise AttributeError).
Proof.
  apply (@free_twice_raises one_block_shader vk0 one_block_vk one_block_vk
           one_block_compiled).
  - discriminate.
  - vm_compute. reflexivity.
Defined.

Lemma getitem_out_of_range A (l : list A) (i : Z) :
  index_out_of_range l i -> getitem l i = Raise IndexError.
Proof.
  unfold index_out_of_range, getitem. intros H.
  destruct (Z.ltb_spec i 0).
  - destruct (Z.leb_spec 0 (i + Z.of_nat (List.length l))); simpl.
    + destruct (Z.ltb_spec (i + Z.of_nat (List.length l))
                           (Z.of_nat (List.length l))); [|reflexivity].
      lia.
    + reflexivity.
  - destruct (Z.leb_spec 0 i); simpl; [|reflexivity].
    destruct (Z.ltb_spec i (Z.of_nat (List.length l))); [|reflexivity].
    lia.
Qed.

(** X2. [record] with a framebuffer index for which the scene has no
    command buffer (outside [-n, n) for [n] command buffers) raises
    [IndexError] before any command is recorded. *)
Theorem record_bad_framebuffer_index
        (indices_offset indices_type indices_count : DataMesh -> Z)
        (attribute_offsets_len : DataMesh -> nat)
        (attribute_offsets_for_shader :
           DataMesh -> DataShader -> result (list Z))
        (self : DataScene) (framebuffer_index : Z) (v : Vk) :
  index_out_of_range (render_commands self) framebuffer_index ->
  record indices_offset indices_type indices_count attribute_offsets_len
    attribute_offsets_for_shader self framebuffer_index v
  = (v, Raise IndexError).
Proof.
  intros H. unfold record, bind, lift.
  now rewrite (getitem_out_of_range H).
Qed.

Lemma record_bad_framebuffer_index_witness :
  record (fun _ => 0) (fun _ => 0) (fun _ => 0) (fun _ => 0%nat)
    (fun _ _ => Ok []) interleaved_scene 2 vk0
  = (vk0, Raise IndexError).
Proof.
  apply record_bad_framebuffer_index.
  unfold index_out_of_range. vm_compute. right. discriminate.
Defined.

Lemma getitem_error A (l : list A) (i : Z) (e : exn) :
  getitem l i = Raise e -> e = IndexError.
Proof.
  unfold getitem.
  destruct (_ && _).
  - destruct (nth_error _ _); intros H; [discriminate|now inversion H].
  - intros H. now inversion H.
Qed.

Lemma getitem_opt_error A (l : list A) (i : option Z) (e : exn) :
  getitem_opt l i = Raise e -> e = IndexError \/ e = TypeError.
Proof.
  destruct i as [i|]; simpl.
  - intros H. left. exact (getitem_error _ _ H).
  - intros H. right. now inversion H.
Qed.

(** X3. [_setup_objects] reads every object's mesh before it creates any
    buffer: if the mesh index of some object does not resolve (out of
    range, or [None]), the call raises [IndexError] or [TypeError] and no
    native call has been made. *)
Theorem _setup_objects_unresolved_mesh (mesh_size : nat -> Z)
        (self : DataScene) (v : Vk) :
  Exists (unresolved_mesh (scene self)) (scene_objects (scene self)) ->
  exists e,
    _setup_objects mesh_size self v = (v, Raise e)
    /\ (e = IndexError \/ e = TypeError).
Proof.
  intros HE.
  destruct (@fold_result_fails _ _
              (pack_body mesh_size (scene_meshes (scene self)))
              (unresolved_mesh (scene self))
              (fun e => e = IndexError \/ e = TypeError)) with
    (l := scene_objects (scene self)) (s := mkPackLocals 0 [] [] [])
    as (e & He & HQ).
  - intros s x e. unfold pack_body.
    destruct (getitem_opt _ _) eqn:Hg; [discriminate|].
    intros H. inversion H; subst. exact (getitem_opt_error _ _ Hg).
  - intros s x HP. unfold pack_body.
    destruct (getitem_opt _ _) eqn:Hg.
    + exfalso. exact (HP _ Hg).
    + eauto.
  - exact HE.
  - exists e. split; [|exact HQ].
    unfold _setup_objects, bind, lift, pack_meshes. now rewrite He.
Qed.

Lemma _setup_objects_unresolved_mesh_witness :
  exists e,
    _setup_objects (fun _ => 100) (DataScene_new engine0 missing_mesh_scene)
      vk0 = (vk0, Raise e)
    /\ (e = IndexError \/ e = TypeError).
Proof.
  apply _setup_objects_unresolved_mesh.
  apply Exists_cons_tl. apply Exists_cons_hd.
  intros m. vm_compute. discriminate.
Defined.

Lemma generate_write_sets_loop (ub : handle) (ds : handle)
      (templates : list WriteSetTemplate) :
  Forall (fun t => wst_descriptor_type t = vk.DESCRIPTOR_TYPE_UNIFORM_BUFFER)
    templates ->
  forall (acc : list WriteSet) (off : Z),
    fold_result templates
      (fun (a : list WriteSet * Z) t =>
         match generate_write_set ub (snd a) t ds with
         | Ok (w, off') => Ok (fst a ++ [w], off')
         | Raise ex => Raise ex
         end)
      (acc, off)
    = Ok (acc ++ laid_out_write_sets ub off templates ds,
          off + Py.sum (map wst_range templates)).
Proof.
  induction 1 as [|t templates Ht _ IH]; intros acc off.
  - simpl. rewrite app_nil_r. unfold Py.sum. simpl. now rewrite Z.add_0_r.
  - cbn [fold_result]. unfold generate_write_set at 1. cbn [snd fst].
    rewrite Ht, Z.eqb_refl. rewrite IH. cbn [laid_out_write_sets map].
    rewrite sum_cons, <- app_assoc. cbn [app]. rewrite Ht.
    f_equal. f_equal. lia.
Qed.

(** X4. [generate_write_set] over the templates of one descriptor set:
    when every template is a uniform buffer, the write sets bind
    consecutive byte ranges of the uniform buffer, the first at the running
    offset and each next one where the previous ends, and the running
    offset advances by the sum of the template ranges; a template of any
    other descriptor type raises [ValueError]. *)
Theorem generate_write_sets_lays_out_ranges (ub : handle) (off : Z)
        (templates : list WriteSetTemplate) (ds : handle) :
  (Forall (fun t => wst_descriptor_type t = vk.DESCRIPTOR_TYPE_UNIFORM_BUFFER)
     templates ->
   generate_write_sets ub off templates ds
   = Ok (laid_out_write_sets ub off templates ds,
         off + Py.sum (map wst_range templates)))
  /\ (Exists
        (fun t => wst_descriptor_type t <> vk.DESCRIPTOR_TYPE_UNIFORM_BUFFER)
        templates ->
      generate_write_sets ub off templates ds = Raise ValueError).
Proof.
  split.
  - intros H. unfold generate_write_sets.
    now rewrite (generate_write_sets_loop ub ds H).
  - intros H. unfold generate_write_sets.
    apply fold_result_raises with
      (P := fun t =>
              wst_descriptor_type t <> vk.DESCRIPTOR_TYPE_UNIFORM_BUFFER);
      [| |exact H].
    + intros s x e. unfold generate_write_set.
      destruct (Z.eqb_spec (wst_descriptor_type x)
                  vk.DESCRIPTOR_TYPE_UNIFORM_BUFFER); [discriminate|].
      intros He. now inversion He.
    + intros s x Hx. unfold generate_write_set.
      destruct (Z.eqb_spec (wst_descriptor_type x)
                  vk.DESCRIPTOR_TYPE_UNIFORM_BUFFER); [contradiction|].
      reflexivity.
Qed.

(** *** The descriptor pool *)

Lemma dict_get_upsert (t k delta : Z) (d : list (Z * Z)) :
  dict_get t (dict_upsert Z.eqb k delta (fun c => c + delta) d)
  = dict_get t d + (if t =? k then delta else 0).
Proof.
  induction d as [|[k' c] d IH]; simpl.
  - destruct (t =? k); lia.
  - destruct (Z.eqb_spec k k') as [->|Hk]; simpl.
    + destruct (t =? k'); lia.
    + destruct (Z.eqb_spec t k'); [|exact IH].
      destruct (Z.eqb_spec t k); [congruence|lia].
Qed.

Lemma pool_counts_loop (t oc : Z) (counts : list (Z * Z)) :
  forall ps,
    dict_get t
      (fold_left
         (fun pool_sizes (tc : Z * Z) =>
            dict_upsert Z.eqb (fst tc) (snd tc * oc)
              (fun c => c + snd tc * oc) pool_sizes)
         counts ps)
    = dict_get t ps + oc * type_count t counts.
Proof.
  induction counts as [|[k c] counts IH]; intros ps.
  - unfold type_count, Py.sum. simpl. lia.
  - cbn [fold_left fst snd]. rewrite IH, dict_get_upsert.
    unfold type_count. cbn [filter fst].
    rewrite (Z.eqb_sym t k).
    destruct (k =? t); cbn [map snd]; [rewrite sum_cons|]; lia.
Qed.

Lemma pool_layouts_loop (t oc : Z) (layouts : list DescriptorSetLayout) :
  forall a : list (Z * Z) * Z,
    let r :=
      fold_left
        (fun (a : list (Z * Z) * Z) dset_layout =>
           (fold_left
              (fun pool_sizes (tc : Z * Z) =>
                 dict_upsert Z.eqb (fst tc) (snd tc * oc)
                   (fun c => c + snd tc * oc) pool_sizes)
              (pool_size_counts dset_layout) (fst a),
            snd a + oc))
        layouts a in
    dict_get t (fst r)
    = dict_get t (fst a)
      + oc * Py.sum (map (fun l => type_count t (pool_size_counts l)) layouts)
    /\ snd r = snd a + oc * Z.of_nat (List.length layouts).
Proof.
  induction layouts as [|l layouts IH]; intros a.
  - unfold Py.sum. simpl. lia.
  - cbn [fold_left]. cbv zeta in IH |- *.
    destruct (IH (fold_left
                    (fun pool_sizes (tc : Z * Z) =>
                       dict_upsert Z.eqb (fst tc) (snd tc * oc)
                         (fun c => c + snd tc * oc) pool_sizes)
                    (pool_size_counts l) (fst a), snd a + oc)) as (H1 & H2).
    rewrite H1, H2. cbn [fst snd map List.length].
    rewrite pool_counts_loop, sum_cons. lia.
Qed.

Lemma pool_groups_loop (shs : list DataShader) (groups : list Group) :
  Forall (group_resolves shs) groups ->
  forall acc : list (Z * Z) * Z,
  exists acc',
    fold_result groups (pool_body shs) acc = Ok acc'
    /\ snd acc' = snd acc + Py.sum (map (group_set_count shs) groups)
    /\ forall t,
         dict_get t (fst acc')
         = dict_get t (fst acc)
           + Py.sum (map (group_type_count shs t) groups).
Proof.
  induction 1 as [|g groups (sh & Hg) _ IH]; intros acc.
  - exists acc. unfold Py.sum. simpl. repeat split; intros; lia.
  - cbn [fold_result]. unfold pool_body at 1. rewrite Hg.
    destruct (descriptor_set_layouts sh) as [layouts|] eqn:Hl.
    + match goal with
      | |- context [fold_result groups _ ?a] =>
          destruct (IH a) as (acc' & He & Hs & Ht)
      end.
      exists acc'. split; [exact He|].
      cbn [map]. rewrite !sum_cons.
      unfold group_set_count at 1. rewrite Hg, Hl.
      split.
      * rewrite Hs.
        destruct (pool_layouts_loop 0 (Z.of_nat (List.length (snd g)))
                    layouts acc) as (_ & H2).
        cbv zeta in H2. rewrite H2. lia.
      * intros t. rewrite Ht, sum_cons.
        assert (Hc : group_type_count shs t g
                     = Z.of_nat (List.length (snd g))
                       * Py.sum (map (fun l =>
                                        type_count t (pool_size_counts l))
                                   layouts))
          by (unfold group_type_count; now rewrite Hg, Hl).
        rewrite Hc.
        destruct (pool_layouts_loop t (Z.of_nat (List.length (snd g)))
                    layouts acc) as (H1 & _).
        cbv zeta in H1. rewrite H1. lia.
    + destruct (IH acc) as (acc' & He & Hs & Ht).
      exists acc'. split; [exact He|].
      cbn [map]. rewrite sum_cons.
      unfold group_set_count at 1. rewrite Hg, Hl.
      split; [lia|].
      intros t. rewrite Ht, sum_cons.
      assert (Hc : group_type_count shs t g = 0)
        by (unfold group_type_count; now rewrite Hg, Hl).
      rewrite Hc. lia.
Qed.

Lemma _group_objects_by_shaders_shaders (self self' : DataScene)
      (groups : list Group) :
  _group_objects_by_shaders self = Ok (groups, self') ->
  shaders self' = shaders self /\ objects self' = objects self
  /\ engine self' = engine self
  /\ descriptor_pool self' = descriptor_pool self.
Proof.
  unfold _group_objects_by_shaders.
  destruct (shader_objects_sorted self).
  - destruct (shader_objects self); [|discriminate].
    intros H. inversion H; subst. repeat split.
  - intros H. inversion H; subst. repeat split.
Qed.

Lemma descriptor_pool_sized (self self' : DataScene)
      (groups : list Group) :
  _group_objects_by_shaders self = Ok (groups, self') ->
  Forall (group_resolves (shaders self)) groups ->
  forall v, exists pool_sizes,
    _setup_descriptor_sets_pool self v
    = (mkVk (S (next_handle v))
         (calls v
          ++ [create_descriptor_pool
                (Py.sum (map (group_set_count (shaders self)) groups))
                pool_sizes (next_handle v)]),
       Ok (set_descriptor_pool (next_handle v) self')).
Proof.
  intros Hgs Hres v.
  destruct (_group_objects_by_shaders_shaders _ Hgs) as (Hsh & _).
  destruct (pool_groups_loop Hres ([], 0)) as (acc & He & Hs & Ht).
  exists (fst acc).
  unfold _setup_descriptor_sets_pool, bind, lift. rewrite Hgs.
  cbn [fst snd]. rewrite Hsh, He. unfold create, ret.
  rewrite Hs. cbn [snd]. rewrite Z.add_0_l. reflexivity.
Qed.

(** X5. [_setup_descriptor_sets_pool], when the shader index of every
    group resolves: one pool is created; its [max_sets] is the sum, over
    the groups, of the number of objects times the number of set layouts of
    the group's shader, and the pool size of each descriptor type is the
    sum of the number of objects times the descriptors of that type in the
    layouts. A shader without uniforms contributes nothing. *)
Theorem descriptor_pool_is_sized_per_object (self self' : DataScene)
        (groups : list Group) (v : Vk) :
  _group_objects_by_shaders self = Ok (groups, self') ->
  Forall (group_resolves (shaders self)) groups ->
  exists pool_sizes,
    _setup_descriptor_sets_pool self v
    = (mkVk (S (next_handle v))
         (calls v
          ++ [create_descriptor_pool
                (Py.sum (map (group_set_count (shaders self)) groups))
                pool_sizes (next_handle v)]),
       Ok (set_descriptor_pool (next_handle v) self'))
    /\ forall t,
         dict_get t pool_sizes
         = Py.sum (map (group_type_count (shaders self) t) groups).
Proof.
  intros Hgs Hres.
  destruct (_group_objects_by_shaders_shaders _ Hgs) as (Hsh & _).
  destruct (pool_groups_loop Hres ([], 0)) as (acc & He & Hs & Ht).
  exists (fst acc). split.
  - unfold _setup_descriptor_sets_pool, bind, lift. rewrite Hgs.
    cbn [fst snd]. rewrite Hsh, He. unfold create, ret.
    rewrite Hs. cbn [snd]. rewrite Z.add_0_l. reflexivity.
  - intros t. rewrite Ht. simpl. reflexivity.
Qed.

Lemma descriptor_pool_is_sized_per_object_witness :
  exists pool_sizes,
    _setup_descriptor_sets_pool (snd swapped_staged) (fst swapped_staged)
    = (mkVk (S (next_handle (fst swapped_staged)))
         (calls (fst swapped_staged)
          ++ [create_descriptor_pool
                (Py.sum
                   (map (group_set_count (shaders (snd swapped_staged)))
                      [(Some 1, [0%nat]); (Some 0, [1%nat])]))
                pool_sizes (next_handle (fst swapped_staged))]),
       Ok (set_descriptor_pool (next_handle (fst swapped_staged))
             (set_shader_objects [(Some 1, [0%nat]); (Some 0, [1%nat])]
                (snd swapped_staged))))
    /\ forall t,
         dict_get t pool_sizes
         = Py.sum
             (map (group_type_count (shaders (snd swapped_staged)) t)
                [(Some 1, [0%nat]); (Some 0, [1%nat])]).
Proof.
  apply descriptor_pool_is_sized_per_object.
  - vm_compute. reflexivity.
  - repeat constructor; eexists; vm_compute; reflexivity.
Defined.

(** *** The descriptor sets and the uniform buffer *)

Lemma range_step_ok (stop step : nat) :
  step <> 0%nat -> exists l, range_step stop step = Ok l.
Proof.
  intros H. unfold range_step.
  destruct (Nat.eqb_spec step 0); [contradiction|]. eauto.
Qed.

Lemma length_repeat_list A (l : list A) (n : nat) :
  List.length (repeat_list l n) = (n * List.length l)%nat.
Proof.
  induction n as [|n IH]; simpl; [reflexivity|].
  rewrite length_app, IH. reflexivity.
Qed.

Lemma descriptor_sets_body_run (pool : handle) (shs : list DataShader)
      (acc : Z * list DataGameObject) (g : Group) (sh : DataShader)
      (layouts : list DescriptorSetLayout) (v : Vk) :
  getitem_opt shs (fst g) = Ok sh ->
  descriptor_set_layouts sh = Some layouts ->
  snd g <> [] ->
  let set_layouts :=
    repeat_list (map set_layout layouts) (List.length (snd g)) in
  exists objs',
    descriptor_sets_body pool shs acc g v
    = (mkVk (next_handle v + List.length set_layouts)%nat
         (calls v
          ++ [allocate_descriptor_sets pool set_layouts
                (seq (next_handle v) (List.length set_layouts))]),
       Ok (fst acc
           + Py.sum (map struct_map_size_bytes layouts)
             * Z.of_nat (List.length (snd g)),
           objs')).
Proof.
  intros Hg Hl Hne. cbv zeta.
  unfold descriptor_sets_body, bind, lift. rewrite Hg, Hl.
  unfold create_many.
  destruct (@range_step_ok
              (List.length
                 (repeat_list (map set_layout layouts)
                    (List.length (snd g))))
              (List.length (snd g))) as (starts & Hr).
  - destruct (snd g); [contradiction|discriminate].
  - rewrite Hr. unfold ret. eexists. reflexivity.
Qed.

Lemma descriptor_sets_body_error (pool : handle) (shs : list DataShader)
      (acc : Z * list DataGameObject) (g : Group) (v v' : Vk) (e : exn) :
  group_resolves shs g -> snd g <> [] ->
  descriptor_sets_body pool shs acc g v = (v', Raise e) -> e = TypeError.
Proof.
  intros (sh & Hg) Hne.
  destruct (descriptor_set_layouts sh) as [layouts|] eqn:Hl.
  - destruct (@descriptor_sets_body_run pool shs acc g sh layouts v Hg Hl Hne)
      as (o & Hb).
    rewrite Hb. discriminate.
  - unfold descriptor_sets_body, bind, lift. rewrite Hg, Hl.
    unfold raise. intros H. now inversion H.
Qed.

Lemma allocated_sets_app (l1 l2 : list VkCall) :
  allocated_sets (l1 ++ l2) = allocated_sets l1 ++ allocated_sets l2.
Proof. unfold allocated_sets. now rewrite flat_map_app. Qed.

Lemma descriptor_sets_loop_run (pool : handle) (shs : list DataShader)
      (groups : list Group) :
  Forall (fun g => group_has_layouts shs g /\ snd g <> []) groups ->
  forall (acc : Z * list DataGameObject) (v : Vk),
  exists v' objs' log,
    for_fold groups (descriptor_sets_body pool shs) acc v
    = (v', Ok (fst acc + Py.sum (map (group_uniform_bytes shs) groups),
               objs'))
    /\ calls v' = calls v ++ log
    /\ Forall (fun c => match c with
                        | create_buffer _ _ _ => False
                        | _ => True
                        end) log
    /\ Z.of_nat (List.length (allocated_sets log))
       = Py.sum (map (group_set_count shs) groups).
Proof.
  induction 1 as [|g groups ((sh & layouts & Hg & Hl) & Hne) _ IH];
    intros acc v.
  - exists v, (snd acc), []. unfold Py.sum. simpl. rewrite app_nil_r.
    rewrite Z.add_0_r. destruct acc. repeat split. constructor.
  - cbn [for_fold]. unfold bind.
    destruct (@descriptor_sets_body_run pool shs acc g sh layouts v Hg Hl Hne)
      as (o & Hb).
    cbv zeta in Hb. rewrite Hb.
    match goal with
    | |- context [for_fold groups _ ?a ?w] =>
        destruct (IH a w) as (v' & objs' & log & He & Hc & Hnb & Hn)
    end.
    exists v', objs'. eexists. split; [|split; [|split]].
    + rewrite He. cbn [fst map]. rewrite sum_cons.
      assert (Hu : group_uniform_bytes shs g
                   = Py.sum (map struct_map_size_bytes layouts)
                     * Z.of_nat (List.length (snd g)))
        by (unfold group_uniform_bytes; now rewrite Hg, Hl).
      rewrite Hu. do 3 f_equal. lia.
    + rewrite Hc. cbn [calls]. rewrite <- app_assoc. reflexivity.
    + constructor; [exact I|exact Hnb].
    + cbn [app]. change (?c :: log) with ([c] ++ log).
      rewrite allocated_sets_app, length_app, Nat2Z.inj_add, Hn.
      cbn [map]. rewrite sum_cons.
      assert (Hs : group_set_count shs g
                   = Z.of_nat (List.length (snd g))
                     * Z.of_nat (List.length layouts))
        by (unfold group_set_count; now rewrite Hg, Hl).
      rewrite Hs. unfold allocated_sets. cbn [flat_map].
      rewrite app_nil_r, length_seq, length_repeat_list, length_map.
      lia.
Qed.

Lemma buffer_size_no_create (log1 log2 : list VkCall) (h : handle) :
  Forall (fun c => match c with
                   | create_buffer _ _ _ => False
                   | _ => True
                   end) log2 ->
  buffer_size (log1 ++ log2) h = buffer_size log1 h.
Proof.
  unfold buffer_size. rewrite fold_left_app.
  generalize (fold_left
                (fun found c =>
                   match c with
                   | create_buffer size _ h0 =>
                       if Nat.eqb h0 h then size else found
                   | _ => found
                   end) log1 0).
  intros z0 H. revert z0.
  induction H as [|c log2 Hc _ IH]; intros z0; [reflexivity|].
  simpl. destruct c; try contradiction; apply IH.
Qed.

(** X6. [_setup_descriptor_sets] iterates [shader.descriptor_set_layouts]
    without the guard that [_setup_descriptor_sets_pool] has: on a scene in
    which some object uses a shader without uniforms (every group being
    non-empty with a shader index that resolves), the pool is created, the
    shader counting for nothing, and [_setup_descriptor_sets] raises
    [TypeError]. *)
Theorem descriptor_sets_need_uniforms (self self' : DataScene)
        (groups : list Group) (v : Vk) :
  _group_objects_by_shaders self = Ok (groups, self') ->
  Forall (fun g => group_resolves (shaders self) g /\ snd g <> []) groups ->
  Exists (group_without_layouts (shaders self)) groups ->
  is_ok (snd (_setup_descriptor_sets_pool self v)) = true
  /\ snd (_setup_descriptor_sets self v) = Raise TypeError.
Proof.
  intros Hgs Hres Hbad.
  destruct (_group_objects_by_shaders_shaders _ Hgs) as (Hsh & _).
  split.
  - assert (Hr : Forall (group_resolves (shaders self)) groups).
    { eapply Forall_impl; [|exact Hres]. now intros g (H & _). }
    destruct (@descriptor_pool_sized self self' groups Hgs Hr v) as (ps & He).
    rewrite He. reflexivity.
  - unfold _setup_descriptor_sets, bind, lift. rewrite Hgs. cbn [fst snd].
    unfold descriptor_sets_loop. rewrite Hsh.
    pose proof (@for_fold_raises_on _ _
                  (descriptor_sets_body (descriptor_pool self')
                     (shaders self))
                  (group_without_layouts (shaders self)) TypeError groups)
      as HR.
    match goal with
    | |- snd (match ?c with _ => _ end) = _ =>
        assert (Hc : snd c = Raise TypeError)
    end.
    { apply HR; [| |exact Hbad].
      - intros s x w w' e Hin. rewrite Forall_forall in Hres.
        destruct (Hres x Hin) as (Hx & Hne).
        now apply descriptor_sets_body_error.
      - intros s x w _ (sh & Hg & Hl).
        unfold descriptor_sets_body, bind, lift. rewrite Hg, Hl.
        reflexivity. }
    destruct (for_fold _ _ _ _) as [w [a|e]]; simpl in Hc; [discriminate|].
    simpl. now inversion Hc.
Qed.

Lemma descriptor_sets_need_uniforms_witness :
  is_ok (snd (_setup_descriptor_sets_pool (snd no_uniform_staged)
                (fst no_uniform_staged))) = true
  /\ snd (_setup_descriptor_sets (snd no_uniform_staged)
            (fst no_uniform_staged)) = Raise TypeError.
Proof.
  apply (@descriptor_sets_need_uniforms (snd no_uniform_staged)
           (set_shader_objects [(Some 0, [0%nat])] (snd no_uniform_staged))
           [(Some 0, [0%nat])]).
  - vm_compute. reflexivity.
  - repeat constructor; [eexists; vm_compute; reflexivity|discriminate].
  - apply Exists_cons_hd. eexists. split; vm_compute; reflexivity.
Defined.

(** X7. [_setup_descriptor_sets], when every group is non-empty and its
    shader resolves and declares uniforms: the call succeeds; the uniform
    buffer and its allocation have the size of the packed blocks of each
    shader once per object of its group, summed over the groups; and the
    number of descriptor sets allocated is the number of objects times the
    number of set layouts, summed over the groups, which is the [max_sets]
    the pool is created with. *)
Theorem uniform_buffer_is_sized_per_object (self self' : DataScene)
        (groups : list Group) (v : Vk) :
  _group_objects_by_shaders self = Ok (groups, self') ->
  Forall (fun g => group_has_layouts (shaders self) g /\ snd g <> [])
    groups ->
  exists v' d log,
    _setup_descriptor_sets self v = (v', Ok d)
    /\ calls v' = calls v ++ log
    /\ buffer_size (calls v') (uniforms_buffer d)
       = Py.sum (map (group_uniform_bytes (shaders self)) groups)
    /\ alloc_size (uniforms_alloc d)
       = Py.sum (map (group_uniform_bytes (shaders self)) groups)
    /\ Z.of_nat (List.length (allocated_sets log))
       = Py.sum (map (group_set_count (shaders self)) groups).
Proof.
  intros Hgs Hok.
  destruct (_group_objects_by_shaders_shaders _ Hgs) as (Hsh & _).
  destruct (descriptor_sets_loop_run (descriptor_pool self') Hok
              (0, objects self') v)
    as (v1 & objs' & log & He & Hc & Hnb & Hn).
  unfold _setup_descriptor_sets, bind, lift. rewrite Hgs. cbn [fst snd].
  unfold descriptor_sets_loop. rewrite Hsh, He. cbn [fst snd].
  unfold create, mem_alloc_buffer, call, ret. cbn [calls next_handle].
  rewrite Z.add_0_l.
  do 3 eexists. split; [reflexivity|]. cbn [calls uniforms_buffer
    uniforms_alloc set_uniforms alloc_size].
  rewrite buffer_size_last.
  split; [|split; [|split]].
  - rewrite Hc, <- !app_assoc. reflexivity.
  - rewrite <- app_assoc.
    rewrite (@buffer_size_no_create _ ([_] ++ [_])).
    + apply buffer_size_last.
    + repeat constructor.
  - reflexivity.
  - rewrite !allocated_sets_app, !length_app. cbn. lia.
Qed.

Lemma uniform_buffer_is_sized_per_object_witness :
  exists v' d log,
    _setup_descriptor_sets (snd swapped_staged) (fst swapped_staged)
    = (v', Ok d)
    /\ calls v' = calls (fst swapped_staged) ++ log
    /\ buffer_size (calls v') (uniforms_buffer d)
       = Py.sum (map (group_uniform_bytes (shaders (snd swapped_staged)))
                   [(Some 1, [0%nat]); (Some 0, [1%nat])])
    /\ alloc_size (uniforms_alloc d)
       = Py.sum (map (group_uniform_bytes (shaders (snd swapped_staged)))
                   [(Some 1, [0%nat]); (Some 0, [1%nat])])
    /\ Z.of_nat (List.length (allocated_sets log))
       = Py.sum (map (group_set_count (shaders (snd swapped_staged)))
                   [(Some 1, [0%nat]); (Some 0, [1%nat])]).
Proof.
  apply (@uniform_buffer_is_sized_per_object (snd swapped_staged)
           (set_shader_objects [(Some 1, [0%nat]); (Some 0, [1%nat])]
              (snd swapped_staged))).
  - vm_compute. reflexivity.
  - repeat constructor;
      try discriminate; do 2 eexists; split; vm_compute; reflexivity.
Defined.

(** *** The set layouts of a compiled shader *)

Lemma dict_upsert_keys (F : Z -> list Uniform) (k : Z) (fresh : list Uniform)
      (upd : list Uniform -> list Uniform) (ks : list Z) :
  NoDup ks ->
  dict_upsert Z.eqb k fresh upd (map (fun k' => (k', F k')) ks)
  = if in_dec Z.eq_dec k ks
    then map (fun k' => (k', if k =? k' then upd (F k') else F k')) ks
    else map (fun k' => (k', F k')) ks ++ [(k, fresh)].
Proof.
  induction 1 as [|y ks Hy Hks IH]; [reflexivity|].
  cbn [map dict_upsert].
  destruct (Z.eqb_spec k y) as [->|Hk].
  - destruct (in_dec Z.eq_dec y (y :: ks)) as [_|Hn];
      [|exfalso; apply Hn; now left].
    cbn [map]. f_equal.
    apply map_ext_in. intros a Ha.
    destruct (Z.eqb_spec y a); [subst; contradiction|reflexivity].
  - rewrite IH.
    destruct (in_dec Z.eq_dec k ks) as [Hin|Hin];
      destruct (in_dec Z.eq_dec k (y :: ks)) as [Hin'|Hin'].
    + cbn [map]. destruct (Z.eqb_spec k y); [contradiction|reflexivity].
    + exfalso. apply Hin'. now right.
    + exfalso. destruct Hin' as [E|E]; [congruence|contradiction].
    + reflexivity.
Qed.

Lemma uniforms_of_set_absent (us : list Uniform) (k : Z) :
  ~ In k (map uniform_set us) -> uniforms_of_set us k = [].
Proof.
  unfold uniforms_of_set. induction us as [|u us IH]; [reflexivity|].
  simpl. intros H. destruct (Z.eqb_spec (uniform_set u) k) as [E|E].
  - exfalso. apply H. now left.
  - apply IH. intros Hin. apply H. now right.
Qed.

Lemma group_uniforms_loop (us : list Uniform) :
  fold_left
    (fun uniforms_by_dset uniform =>
       dict_upsert Z.eqb (uniform_set uniform) [uniform]
         (fun l => l ++ [uniform]) uniforms_by_dset)
    us []
  = uniforms_by_set us.
Proof.
  induction us as [|u us IH] using rev_ind; [reflexivity|].
  rewrite fold_left_app, IH. cbn [fold_left].
  unfold uniforms_by_set, uniform_sets. rewrite map_app. cbn [map].
  rewrite firsts_snoc.
  rewrite (@dict_upsert_keys (uniforms_of_set us));
    [|apply firsts_NoDup].
  destruct (in_dec Z.eq_dec (uniform_set u)
              (Py.firsts Z.eq_dec (map uniform_set us))) as [Hin|Hin];
    destruct (in_dec Z.eq_dec (uniform_set u) (map uniform_set us))
      as [Hin'|Hin'].
  - apply map_ext. intros k. unfold uniforms_of_set.
    rewrite filter_app. cbn [filter].
    destruct (Z.eqb_spec (uniform_set u) k); [reflexivity|].
    now rewrite app_nil_r.
  - exfalso. apply Hin'. now apply firsts_In in Hin.
  - exfalso. apply Hin. now apply firsts_In.
  - rewrite map_app. cbn [map]. f_equal.
    + apply map_ext_in. intros k Hk. unfold uniforms_of_set.
      rewrite filter_app. cbn [filter].
      destruct (Z.eqb_spec (uniform_set u) k) as [E|E].
      * subst k. contradiction.
      * now rewrite app_nil_r.
    + unfold uniforms_of_set at 1. rewrite filter_app. cbn [filter].
      rewrite Z.eqb_refl.
      fold (uniforms_of_set us (uniform_set u)).
      now rewrite (@uniforms_of_set_absent _ _ Hin').
Qed.

(** X8. [_group_uniforms_by_sets] returns one entry per distinct set
    index, in the order in which the set indices are first met in the
    mapping (not sorted by set index); the entry of a set holds exactly the
    uniforms declared in it, in declaration order. *)
Theorem uniforms_grouped_by_first_encounter (sh : Shader) :
  _group_uniforms_by_sets sh = uniforms_by_set (uniforms (mapping sh))
  /\ NoDup (map fst (_group_uniforms_by_sets sh))
  /\ forall u, In u (uniforms (mapping sh)) ->
       exists g, In g (_group_uniforms_by_sets sh)
                 /\ fst g = uniform_set u /\ In u (snd g).
Proof.
  assert (E : _group_uniforms_by_sets sh
              = uniforms_by_set (uniforms (mapping sh)))
    by apply group_uniforms_loop.
  split; [exact E|]. rewrite E. unfold uniforms_by_set, uniform_sets. split.
  - rewrite map_map. cbn [fst]. rewrite map_id. apply firsts_NoDup.
  - intros u Hu.
    exists (uniform_set u, uniforms_of_set (uniforms (mapping sh))
                             (uniform_set u)).
    split; [|split; [reflexivity|]].
    + apply in_map_iff. exists (uniform_set u). split; [reflexivity|].
      apply firsts_In. now apply in_map.
    + cbn [snd]. unfold uniforms_of_set. apply filter_In.
      split; [exact Hu|apply Z.eqb_refl].
Qed.

Lemma struct_sizes_upsert (name : string) (s : Struct)
      (d : list (string * Struct)) :
  struct_sizes (dict_upsert String.eqb name s (fun _ => s) d)
  = dict_upsert String.eqb name (sizeof s) (fun _ => sizeof s)
      (struct_sizes d).
Proof.
  induction d as [|[k x] d IH]; simpl; [reflexivity|].
  destruct (String.eqb name k); simpl; [reflexivity|]. now rewrite IH.
Qed.

Lemma uniform_loop_run (us : list Uniform) :
  forall acc locals,
    fold_result us uniform_body acc = Ok locals ->
    wst locals = wst acc ++ map template_of us
    /\ struct_sizes (structs locals)
       = fold_left
           (fun d u =>
              dict_upsert String.eqb (uniform_name u)
                (packed_size (uniform_fields u))
                (fun _ => packed_size (uniform_fields u)) d)
           us (struct_sizes (structs acc))
    /\ forall t,
         dict_get t (counts locals)
         = dict_get t (counts acc) + declared_count t us.
Proof.
  induction us as [|u us IH]; intros acc locals H.
  - simpl in H. inversion H; subst. rewrite app_nil_r.
    repeat split. intros t. unfold declared_count, Py.sum. simpl. lia.
  - cbn [fold_result] in H. unfold uniform_body at 1 in H.
    destruct (struct_args (uniform_fields u)) as [args|] eqn:Ha;
      [|discriminate].
    destruct (Structure (uniform_name u) 16 args) as [st|] eqn:Hst;
      [|discriminate].
    apply Structure_ok in Hst. destruct Hst as [-> _].
    apply IH in H. destruct H as (Hw & Hs & Hc). cbn [wst structs counts] in *.
    rewrite (@struct_args_size _ _ _ _ Ha) in Hw.
    split; [|split].
    + rewrite Hw, <- app_assoc. reflexivity.
    + rewrite Hs. cbn [fold_left]. rewrite struct_sizes_upsert.
      now rewrite (@struct_args_size _ _ _ _ Ha).
    + intros t. rewrite Hc, dict_get_upsert.
      unfold declared_count. cbn [filter].
      rewrite (Z.eqb_sym t).
      destruct (uniform_type u =? t); cbn [map]; [rewrite sum_cons|]; lia.
Qed.


Lemma set_loop_layouts (groups : list (Z * list Uniform)) :
  forall layouts v v' layouts',
    for_fold groups set_body layouts v = (v', Ok layouts') ->
    exists news,
      layouts' = layouts ++ news /\ Forall2 layout_of_group groups news.
Proof.
  induction groups as [|g groups IH]; intros layouts v v' layouts' H.
  - simpl in H. inversion H; subst. exists []. rewrite app_nil_r.
    split; [reflexivity|constructor].
  - cbn [for_fold] in H. unfold bind in H. rewrite set_body_run in H.
    destruct (fold_result (snd g) uniform_body (mkSetLocals [] [] [] []))
      as [locals|e] eqn:Hf; [|discriminate].
    apply IH in H. destruct H as (news & E & HF).
    eexists (_ :: news). split.
    + rewrite E, <- app_assoc. reflexivity.
    + constructor; [|exact HF]. exists locals. eexists.
      split; [exact Hf|reflexivity].
Qed.

Lemma DataShader_init_layouts (sh : Shader) (v v' : Vk) (ds : DataShader) :
  uniforms (mapping sh) <> [] ->
  DataShader_init sh v = (v', Ok ds) ->
  exists layouts,
    descriptor_set_layouts ds = Some layouts
    /\ Forall2 layout_of_group (uniforms_by_set (uniforms (mapping sh)))
         layouts.
Proof.
  intros Hne H. unfold DataShader_init, bind in H.
  rewrite _compile_shader_run in H.
  unfold _setup_vertex_state, _setup_descriptor_layouts in H.
  destruct (uniforms (mapping sh)) as [|u us] eqn:Hu; [congruence|].
  simpl in H. unfold bind in H.
  destruct (for_fold (_group_uniforms_by_sets sh) set_body [] _)
    as [v1 [layouts|e]] eqn:Hloop; [|discriminate].
  apply set_loop_layouts in Hloop. destruct Hloop as (news & E & HF).
  simpl in E. subst news.
  unfold ret, _setup_pipeline_layout, create in H. simpl in H.
  inversion H; subst; clear H. simpl.
  exists layouts. split; [reflexivity|].
  unfold _group_uniforms_by_sets in HF. rewrite group_uniforms_loop in HF.
  now rewrite Hu in HF.
Qed.


Lemma Forall2_Forall_r A B (R : A -> B -> Prop) (P : B -> Prop)
      (l1 : list A) (l2 : list B) :
  (forall a b, In a l1 -> R a b -> P b) ->
  Forall2 R l1 l2 -> Forall P l2.
Proof.
  intros HR H. induction H as [|a b l1 l2 Hab _ IH]; constructor.
  - apply (HR a); [now left|exact Hab].
  - apply IH. intros a' b' Hin. apply HR. now right.
Qed.



(** X10. The pool-size counts of a set layout of a compiled shader tally,
    for each descriptor type, the descriptor counts of the uniforms of
    that type declared in the layout's set. *)
Theorem layout_counts_tally_the_uniforms (sh : Shader) (v v' : Vk)
        (ds : DataShader) :
  uniforms (mapping sh) <> [] ->
  DataShader_init sh v = (v', Ok ds) ->
  exists layouts,
    descriptor_set_layouts ds = Some layouts
    /\ Forall2
         (fun g l =>
            forall t,
              dict_get t (pool_size_counts l) = declared_count t (snd g))
         (uniforms_by_set (uniforms (mapping sh))) layouts.
Proof.
  intros Hne H.
  destruct (@DataShader_init_layouts sh v v' ds Hne H) as (layouts & Hl & HF).
  exists layouts. split; [exact Hl|].
  eapply Forall2_impl; [|exact HF].
  intros g l (locals & h & Hf & ->) t.
  cbn [pool_size_counts DescriptorSetLayout_init].
  destruct (@uniform_loop_run _ _ _ Hf) as (_ & _ & Hc).
  rewrite Hc. simpl. reflexivity.
Qed.

Lemma layout_counts_tally_the_uniforms_witness :
  exists layouts,
    descriptor_set_layouts reversed_sets_compiled = Some layouts
    /\ Forall2
         (fun g l =>
            forall t,
              dict_get t (pool_size_counts l) = declared_count t (snd g))
         (uniforms_by_set (uniforms (mapping reversed_sets_shader)))
         layouts.
Proof.
  apply (@layout_counts_tally_the_uniforms reversed_sets_shader vk0
           reversed_sets_vk reversed_sets_compiled).
  - discriminate.
  - vm_compute. reflexivity.
Defined.

(** *** Sizes of the uniform blocks *)

Lemma member_floats_aligned (value : Z) :
  value <> 1 -> (4 | member_floats value).
Proof.
  intros H. unfold member_floats, UniformMemberType_of_value.
  destruct (Z.eqb_spec value 0); [now exists 1|].
  destruct (Z.eqb_spec value 1); [contradiction|].
  destruct (Z.eqb_spec value 2); [now exists 4|now exists 0].
Qed.

Lemma sum_divide (n : Z) (l : list Z) :
  Forall (fun x => (n | x)) l -> (n | Py.sum l).
Proof.
  induction 1 as [|x l Hx _ IH].
  - now exists 0.
  - rewrite sum_cons. now apply Z.divide_add_r.
Qed.

Lemma packed_size_aligned (fields : list Field) :
  Forall (fun f => field_type f <> 1) fields -> (16 | packed_size fields).
Proof.
  intros H. unfold packed_size. apply sum_divide.
  apply Forall_map. eapply Forall_impl; [|exact H].
  intros f Hf. cbv beta.
  destruct (member_floats_aligned Hf) as (q & ->).
  exists (field_count f * q). lia.
Qed.

Lemma upsert_Forall K V (eqb : K -> K -> bool) (Q : V -> Prop) (k : K)
      (fresh : V) (upd : V -> V) (d : list (K * V)) :
  Q fresh -> (forall x, Q (upd x)) ->
  Forall (fun p => Q (snd p)) d ->
  Forall (fun p => Q (snd p)) (dict_upsert eqb k fresh upd d).
Proof.
  intros Hf Hu. induction 1 as [|[k' x] d Hx Hd IH]; simpl.
  - constructor; [exact Hf|constructor].
  - destruct (eqb k k'); constructor; simpl; auto.
Qed.

Lemma struct_sizes_aligned (us : list Uniform) :
  no_mat3 us ->
  forall d,
    Forall (fun p : string * Z => (16 | snd p)) d ->
    Forall (fun p : string * Z => (16 | snd p))
      (fold_left
         (fun d u =>
            dict_upsert String.eqb (uniform_name u)
              (packed_size (uniform_fields u))
              (fun _ => packed_size (uniform_fields u)) d)
         us d).
Proof.
  induction 1 as [|u us Hu _ IH]; intros d Hd; [exact Hd|].
  cbn [fold_left]. apply IH.
  apply upsert_Forall with (Q := fun x => (16 | x)); [| |exact Hd].
  - now apply packed_size_aligned.
  - intros _. now apply packed_size_aligned.
Qed.

Lemma struct_map_size_sizes (d : list (string * Struct)) :
  Py.sum (map sizeof (dict_values d)) = Py.sum (map snd (struct_sizes d)).
Proof.
  unfold dict_values, struct_sizes. now rewrite !map_map.
Qed.

Lemma no_mat3_of_set (us : list Uniform) (k : Z) :
  no_mat3 us -> no_mat3 (uniforms_of_set us k).
Proof.
  unfold no_mat3, uniforms_of_set. rewrite !Forall_forall.
  intros H u Hu. apply H. apply filter_In in Hu. tauto.
Qed.

Lemma In_uniforms_by_set (us : list Uniform) (g : Z * list Uniform) :
  In g (uniforms_by_set us) -> snd g = uniforms_of_set us (fst g).
Proof.
  unfold uniforms_by_set. intros H. apply in_map_iff in H.
  destruct H as (k & <- & _). reflexivity.
Qed.

(** X11. When no field of the shader's uniforms is a 3x3 matrix, the
    packed size of every set layout of the compiled shader and the range of
    every write-set template are multiples of 16 bytes. *)
Theorem blocks_without_mat3_are_aligned (sh : Shader) (v v' : Vk)
        (ds : DataShader) :
  uniforms (mapping sh) <> [] ->
  DataShader_init sh v = (v', Ok ds) ->
  no_mat3 (uniforms (mapping sh)) ->
  exists layouts,
    descriptor_set_layouts ds = Some layouts
    /\ Forall
         (fun l =>
            struct_map_size_bytes l mod 16 = 0
            /\ Forall (fun t => wst_range t mod 16 = 0)
                 (write_set_templates l))
         layouts.
Proof.
  intros Hne H Hno.
  destruct (@DataShader_init_layouts sh v v' ds Hne H) as (layouts & Hl & HF).
  exists layouts. split; [exact Hl|].
  eapply Forall2_Forall_r; [|exact HF].
  intros g l Hin (locals & h & Hf & ->).
  cbn [struct_map_size_bytes write_set_templates DescriptorSetLayout_init].
  destruct (@uniform_loop_run _ _ _ Hf) as (Hw & Hs & _).
  assert (Hg : no_mat3 (snd g)).
  { rewrite (In_uniforms_by_set _ _ Hin). now apply no_mat3_of_set. }
  split.
  - apply Z.mod_divide; [lia|].
    rewrite struct_map_size_sizes, Hs. apply sum_divide.
    apply Forall_map. apply (struct_sizes_aligned Hg). constructor.
  - rewrite Hw. cbn [wst app]. apply Forall_map.
    eapply Forall_impl; [|exact Hg].
    intros u Hu. cbn [wst_range template_of].
    apply Z.mod_divide; [lia|]. now apply packed_size_aligned.
Qed.

Lemma blocks_without_mat3_are_aligned_witness :
  exists layouts,
    descriptor_set_layouts reversed_sets_compiled = Some layouts
    /\ Forall
         (fun l =>
            struct_map_size_bytes l mod 16 = 0
            /\ Forall (fun t => wst_range t mod 16 = 0)
                 (write_set_templates l))
         layouts.
Proof.
  apply (@blocks_without_mat3_are_aligned reversed_sets_shader vk0
           reversed_sets_vk reversed_sets_compiled).
  - discriminate.
  - vm_compute. reflexivity.
  - repeat constructor; discriminate.
Defined.

Lemma upsert_fresh (k : string) (x : Z) (upd : Z -> Z)
      (d : list (string * Z)) :
  ~ In k (map fst d) ->
  dict_upsert String.eqb k x upd d = d ++ [(k, x)].
Proof.
  induction d as [|[k' y] d IH]; simpl; intros H; [reflexivity|].
  destruct (String.eqb_spec k k') as [E|E].
  - exfalso. apply H. now left.
  - f_equal. apply IH. intros Hin. apply H. now right.
Qed.

Lemma struct_sizes_distinct (us : list Uniform) :
  forall d,
    NoDup (map fst d ++ map uniform_name us) ->
    fold_left
      (fun d u =>
         dict_upsert String.eqb (uniform_name u)
           (packed_size (uniform_fields u))
           (fun _ => packed_size (uniform_fields u)) d)
      us d
    = d ++ map (fun u => (uniform_name u, packed_size (uniform_fields u)))
             us.
Proof.
  induction us as [|u us IH]; intros d Hnd.
  - simpl. now rewrite app_nil_r.
  - cbn [fold_left map]. cbn [map] in Hnd.
    rewrite upsert_fresh.
    + rewrite IH.
      * rewrite <- app_assoc. reflexivity.
      * rewrite map_app. cbn [map fst]. rewrite <- app_assoc. exact Hnd.
    + apply NoDup_remove_2 in Hnd. intros Hin. apply Hnd.
      apply in_or_app. now left.
Qed.

(** X12. When no two uniforms of the same set share a name, the packed
    size of every set layout of the compiled shader, which is the share of
    an object in the uniform buffer, equals the sum of the ranges of the
    layout's write-set templates. *)
Theorem layout_size_is_the_sum_of_its_ranges (sh : Shader) (v v' : Vk)
        (ds : DataShader) :
  uniforms (mapping sh) <> [] ->
  DataShader_init sh v = (v', Ok ds) ->
  (forall k,
     NoDup (map uniform_name (uniforms_of_set (uniforms (mapping sh)) k))) ->
  exists layouts,
    descriptor_set_layouts ds = Some layouts
    /\ Forall
         (fun l =>
            struct_map_size_bytes l
            = Py.sum (map wst_range (write_set_templates l)))
         layouts.
Proof.
  intros Hne H Hnd.
  destruct (@DataShader_init_layouts sh v v' ds Hne H) as (layouts & Hl & HF).
  exists layouts. split; [exact Hl|].
  eapply Forall2_Forall_r; [|exact HF].
  intros g l Hin (locals & h & Hf & ->).
  cbn [struct_map_size_bytes write_set_templates DescriptorSetLayout_init].
  destruct (@uniform_loop_run _ _ _ Hf) as (Hw & Hs & _).
  rewrite struct_map_size_sizes, Hs, Hw. cbn [structs wst app].
  rewrite struct_sizes_distinct.
  - cbn [app struct_sizes map]. rewrite !map_map. reflexivity.
  - cbn [struct_sizes map app].
    rewrite (In_uniforms_by_set _ _ Hin). apply Hnd.
Qed.

Lemma layout_size_is_the_sum_of_its_ranges_witness :
  exists layouts,
    descriptor_set_layouts reversed_sets_compiled = Some layouts
    /\ Forall
         (fun l =>
            struct_map_size_bytes l
            = Py.sum (map wst_range (write_set_templates l)))
         layouts.
Proof.
  apply (@layout_size_is_the_sum_of_its_ranges reversed_sets_shader vk0
           reversed_sets_vk reversed_sets_compiled).
  - discriminate.
  - vm_compute. reflexivity.
  - intros k. unfold uniforms_of_set. cbn [reversed_sets_shader
      simple_shader mapping uniforms filter mat4_uniform uniform_set].
    destruct (1 =? k); destruct (0 =? k); cbn [map uniform_name];
      repeat constructor; simpl; intuition discriminate.
Defined.

(** *** The order of the attribute names *)

Section SortedByKey.

Variable A : Type.
Variable key : A -> Z.

Lemma insert_sorted_perm (x : A) (l : list A) :
  Permutation (x :: l) (Py.insert_sorted key x l).
Proof.
  induction l as [|y l IH]; simpl; [apply Permutation_refl|].
  destruct (key x <=? key y); [apply Permutation_refl|].
  eapply Permutation_trans; [apply perm_swap|]. now apply perm_skip.
Qed.

Lemma sorted_perm (l : list A) : Permutation l (Py.sorted key l).
Proof.
  unfold Py.sorted. induction l as [|x l IH]; simpl; [constructor|].
  eapply Permutation_trans; [|apply insert_sorted_perm].
  now apply perm_skip.
Qed.

Lemma insert_sorted_sorted (x : A) (l : list A) :
  StronglySorted (fun a b => key a <= key b) l ->
  StronglySorted (fun a b => key a <= key b) (Py.insert_sorted key x l).
Proof.
  induction 1 as [|y l Hl IH Hy]; simpl.
  - constructor; constructor.
  - destruct (Z.leb_spec (key x) (key y)) as [Hle|Hlt].
    + constructor; [constructor; assumption|].
      constructor; [exact Hle|].
      eapply Forall_impl; [|exact Hy]. intros z Hz. simpl in Hz. lia.
    + constructor; [exact IH|].
      rewrite Forall_forall in *. intros z Hz.
      apply (Permutation_in z (Permutation_sym (insert_sorted_perm x l)))
        in Hz.
      destruct Hz as [<-|Hz]; [lia|now apply Hy].
Qed.

Lemma sorted_sorted (l : list A) :
  StronglySorted (fun a b => key a <= key b) (Py.sorted key l).
Proof.
  unfold Py.sorted. induction l as [|x l IH]; simpl; [constructor|].
  now apply insert_sorted_sorted.
Qed.

Lemma insert_sorted_stable (k : Z) (x : A) (l : list A) :
  filter (fun a => key a =? k) (Py.insert_sorted key x l)
  = filter (fun a => key a =? k) (x :: l).
Proof.
  induction l as [|y l IH]; [reflexivity|].
  cbn [Py.insert_sorted].
  destruct (Z.leb_spec (key x) (key y)) as [Hle|Hlt]; [reflexivity|].
  cbn [filter] in *. rewrite IH.
  destruct (Z.eqb_spec (key y) k); destruct (Z.eqb_spec (key x) k);
    try reflexivity. lia.
Qed.

Lemma sorted_stable (k : Z) (l : list A) :
  filter (fun a => key a =? k) (Py.sorted key l)
  = filter (fun a => key a =? k) l.
Proof.
  unfold Py.sorted. induction l as [|x l IH]; [reflexivity|].
  cbn [fold_right]. rewrite insert_sorted_stable. cbn [filter].
  now rewrite IH.
Qed.

End SortedByKey.

(** X13. [_setup_vertex_state] orders the attribute names by binding: the
    names are those of the mapping's attributes rearranged so that the
    bindings never decrease, attributes of the same binding keeping their
    declaration order; the attribute descriptions stay in declaration
    order. *)
Theorem attribute_names_ordered_by_binding (sh : Shader) :
  exists ordered,
    snd (_setup_vertex_state sh) = map attr_name ordered
    /\ Permutation (attributes (mapping sh)) ordered
    /\ StronglySorted (fun a b => attr_binding a <= attr_binding b) ordered
    /\ (forall b,
          filter (fun a => attr_binding a =? b) ordered
          = filter (fun a => attr_binding a =? b) (attributes (mapping sh)))
    /\ map va_location
         (vertex_attribute_descriptions (fst (_setup_vertex_state sh)))
       = map attr_location (attributes (mapping sh)).
Proof.
  exists (Py.sorted attr_binding (attributes (mapping sh))).
  split; [reflexivity|]. split; [apply sorted_perm|].
  split; [apply sorted_sorted|]. split; [intros b; apply sorted_stable|].
  unfold _setup_vertex_state. cbn. rewrite map_map. reflexivity.
Qed.

(** *** The pipelines *)

Lemma nth_error_update_at A (f : A -> A) (l : list A) :
  forall i j,
    nth_error (update_at l i f) j
    = if Nat.eqb i j then option_map f (nth_error l j) else nth_error l j.
Proof.
  induction l as [|x l IH]; intros i j.
  - simpl. destruct (Nat.eqb i j); [|reflexivity]. now destruct j.
  - destruct i as [|i]; destruct j as [|j]; simpl; try reflexivity.
    apply IH.
Qed.

Lemma set_pipeline_twice (k k' : option Z) (o : DataGameObject) :
  set_pipeline k (set_pipeline k' o) = set_pipeline k o.
Proof. reflexivity. Qed.

Lemma assign_pipeline_nth (k : option Z) (refs : list nat) :
  forall objs j,
    nth_error (assign_pipeline k refs objs) j
    = if existsb (Nat.eqb j) refs
      then option_map (set_pipeline k) (nth_error objs j)
      else nth_error objs j.
Proof.
  unfold assign_pipeline.
  induction refs as [|r refs IH]; intros objs j; [reflexivity|].
  cbn [fold_left existsb]. rewrite IH, nth_error_update_at.
  rewrite (Nat.eqb_sym j r).
  destruct (Nat.eqb r j); cbn [orb]; [|reflexivity].
  destruct (existsb (Nat.eqb j) refs); [|reflexivity].
  destruct (nth_error objs j); reflexivity.
Qed.

Lemma assign_groups_nth (objs0 : list DataGameObject) (groups : list Group) :
  (forall g j, In g groups -> In j (snd g) ->
               exists o, nth_error objs0 j = Some o /\ shader o = fst g) ->
  forall (c : nat -> bool) (os : list DataGameObject),
    (forall j,
       nth_error os j
       = option_map (fun o => if c j then set_pipeline (shader o) o else o)
           (nth_error objs0 j)) ->
    forall j,
      nth_error
        (fold_left (fun os (g : Group) => assign_pipeline (fst g) (snd g) os)
           groups os) j
      = option_map
          (fun o =>
             if c j || in_groups groups j
             then set_pipeline (shader o) o else o)
          (nth_error objs0 j).
Proof.
  induction groups as [|g groups IH]; intros Hg c os Hos j.
  - simpl. rewrite Hos, orb_false_r. reflexivity.
  - cbn [fold_left in_groups existsb].
    rewrite (IH (fun g' j' Hin => Hg g' j' (or_intror Hin))
               (fun j => c j || existsb (Nat.eqb j) (snd g))).
    + now rewrite orb_assoc.
    + intros i. rewrite assign_pipeline_nth, Hos.
      destruct (existsb (Nat.eqb i) (snd g)) eqn:Ex.
      * apply existsb_exists in Ex. destruct Ex as (i' & Hin & E).
        apply Nat.eqb_eq in E. subst i'.
        destruct (Hg g i (or_introl eq_refl) Hin) as (o & Ho & Hk).
        rewrite Ho. cbn [option_map]. rewrite orb_true_r, <- Hk.
        destruct (c i); reflexivity.
      * now rewrite orb_false_r.
Qed.

Lemma partition_covers (objs : list DataGameObject) (j : nat)
      (o : DataGameObject) :
  nth_error objs j = Some o ->
  in_groups (partition_by_shader objs) j = true.
Proof.
  intros Ho. unfold in_groups. apply existsb_exists.
  exists (shader o, members objs (shader o)). split.
  - unfold partition_by_shader. apply in_map_iff. exists (shader o).
    split; [reflexivity|]. apply shader_keys_spec.
    exists o. split; [eapply nth_error_In; exact Ho|reflexivity].
  - cbn [snd]. apply existsb_exists. exists j. split.
    + apply members_spec. eauto.
    + apply Nat.eqb_refl.
Qed.

Lemma assign_partition (objs : list DataGameObject) :
  fold_left (fun os (g : Group) => assign_pipeline (fst g) (snd g) os)
    (partition_by_shader objs) objs
  = map (fun o => set_pipeline (shader o) o) objs.
Proof.
  apply nth_error_ext. intros j.
  rewrite (@assign_groups_nth objs (partition_by_shader objs))
    with (c := fun _ => false).
  - rewrite nth_error_map. destruct (nth_error objs j) as [o|] eqn:Ho;
      [|reflexivity].
    cbn [option_map orb]. now rewrite (@partition_covers _ _ _ Ho).
  - intros g i Hin Hi. unfold partition_by_shader in Hin.
    apply in_map_iff in Hin. destruct Hin as (k & <- & _).
    cbn [fst snd] in *. now apply members_spec.
  - intros i. destruct (nth_error objs i); reflexivity.
Qed.

Lemma pipeline_loop (e : Engine) (shs : list DataShader)
      (groups : list Group) :
  Forall (group_resolves shs) groups ->
  forall acc : list DataGameObject * list PipelineInfo,
  exists infos,
    fold_result groups (pipeline_body e shs) acc
    = Ok (fold_left
            (fun os (g : Group) => assign_pipeline (fst g) (snd g) os)
            groups (fst acc),
          snd acc ++ infos)
    /\ Forall2 (fun (g : Group) i => info_of_shader e shs (fst g) i)
         groups infos.
Proof.
  induction 1 as [|g groups (sh & Hg) _ IH]; intros acc.
  - exists []. simpl. rewrite app_nil_r. destruct acc.
    split; [reflexivity|constructor].
  - cbn [fold_result]. unfold pipeline_body at 1. rewrite Hg.
    match goal with
    | |- context [fold_result groups _ ?a] =>
        destruct (IH a) as (infos & He & HF)
    end.
    exists (pipeline_info e sh :: infos). split.
    + rewrite He. cbn [fst snd fold_left]. rewrite <- app_assoc.
      reflexivity.
    + constructor; [|exact HF]. exists sh. split; [exact Hg|reflexivity].
Qed.

(** X14. The first [_setup_pipelines] of a scene (grouping not yet
    memoized) in which the shader index of every object resolves: one
    pipeline is created for each distinct shader index used, in
    first-encounter order, from that shader's stages and layout, in a
    single batched call after the pipeline cache; and the pipeline index
    of every object is set to its shader index. *)
Theorem pipelines_one_per_shader_used (self : DataScene) (v : Vk) :
  shader_objects_sorted self = false ->
  Forall (shader_resolves (shaders self)) (objects self) ->
  exists infos self',
    _setup_pipelines self v
    = (mkVk (S (next_handle v) + List.length infos)%nat
         (calls v
          ++ [create_pipeline_cache (next_handle v);
              create_graphics_pipelines infos (next_handle v)
                (seq (S (next_handle v)) (List.length infos))]),
       Ok self')
    /\ Forall2 (info_of_shader (engine self) (shaders self))
         (shader_keys (objects self)) infos
    /\ pipelines self' = seq (S (next_handle v)) (List.length infos)
    /\ List.length (pipelines self')
       = List.length (shader_keys (objects self))
    /\ objects self'
       = map (fun o => set_pipeline (shader o) o) (objects self).
Proof.
  intros Hs Hres.
  assert (Hgr : Forall (group_resolves (shaders self))
                  (partition_by_shader (objects self))).
  { apply Forall_forall. intros g Hin. unfold partition_by_shader in Hin.
    apply in_map_iff in Hin. destruct Hin as (k & <- & Hk).
    apply shader_keys_spec in Hk. destruct Hk as (o & Ho & <-).
    rewrite Forall_forall in Hres. exact (Hres o Ho). }
  destruct (pipeline_loop (engine self) Hgr (objects self, []))
    as (infos & He & HF).
  assert (HF' : Forall2 (info_of_shader (engine self) (shaders self))
                  (shader_keys (objects self)) infos).
  { unfold partition_by_shader in HF.
    clear - HF. remember (shader_keys (objects self)) as ks. clear Heqks.
    revert infos HF. induction ks as [|k ks IH]; intros infos HF;
      inversion HF; subst; constructor; auto. }
  exists infos. eexists. split; [|split; [exact HF'|]].
  - unfold _setup_pipelines, bind, lift, _group_objects_by_shaders.
    rewrite Hs. cbn [fst snd]. rewrite group_objects_spec.
    cbn [engine shaders objects set_shader_objects].
    rewrite He. cbn [fst snd app].
    unfold create, create_many, ret. cbn [next_handle calls].
    rewrite <- app_assoc. reflexivity.
  - cbn [pipelines set_pipelines objects set_objects set_shader_objects].
    split; [reflexivity|]. split.
    + rewrite length_seq. symmetry. exact (Forall2_length HF').
    + cbn [fst]. apply assign_partition.
Qed.

Lemma pipelines_one_per_shader_used_witness :
  exists infos self',
    _setup_pipelines (snd swapped_staged) (fst swapped_staged)
    = (mkVk (S (next_handle (fst swapped_staged)) + List.length infos)%nat
         (calls (fst swapped_staged)
          ++ [create_pipeline_cache (next_handle (fst swapped_staged));
              create_graphics_pipelines infos
                (next_handle (fst swapped_staged))
                (seq (S (next_handle (fst swapped_staged)))
                   (List.length infos))]),
       Ok self')
    /\ Forall2
         (info_of_shader (engine (snd swapped_staged))
            (shaders (snd swapped_staged)))
         (shader_keys (objects (snd swapped_staged))) infos
    /\ pipelines self'
       = seq (S (next_handle (fst swapped_staged))) (List.length infos)
    /\ List.length (pipelines self')
       = List.length (shader_keys (objects (snd swapped_staged)))
    /\ objects self'
       = map (fun o => set_pipeline (shader o) o)
           (objects (snd swapped_staged)).
Proof.
  apply pipelines_one_per_shader_used.
  - reflexivity.
  - repeat constructor; eexists; vm_compute; reflexivity.
Defined.

(** X15. [_setup_pipelines] looks every shader up before it creates
    anything: on the first call, if the shader index of some object does
    not resolve (out of range, or [None]), it raises [IndexError] or
    [TypeError] and no native call has been made. *)
Theorem _setup_pipelines_unresolved_shader (self : DataScene) (v : Vk) :
  shader_objects_sorted self = false ->
  Exists (shader_unresolved (shaders self)) (objects self) ->
  exists e,
    _setup_pipelines self v = (v, Raise e)
    /\ (e = IndexError \/ e = TypeError).
Proof.
  intros Hs HE.
  destruct (@fold_result_fails _ _
              (pipeline_body (engine self) (shaders self))
              (fun g : Group =>
                 forall sh, getitem_opt (shaders self) (fst g) <> Ok sh)
              (fun e => e = IndexError \/ e = TypeError)) with
    (l := partition_by_shader (objects self))
    (s := (objects self, @nil PipelineInfo))
    as (e & He & HQ).
  - intros s x e. unfold pipeline_body.
    destruct (getitem_opt _ _) eqn:Hg; [discriminate|].
    intros H. inversion H; subst. exact (getitem_opt_error _ _ Hg).
  - intros s x HP. unfold pipeline_body.
    destruct (getitem_opt _ _) eqn:Hg.
    + exfalso. exact (HP _ eq_refl).
    + eauto.
  - apply Exists_exists in HE. destruct HE as (o & Ho & Hbad).
    apply Exists_exists.
    exists (shader o, members (objects self) (shader o)). split.
    + unfold partition_by_shader. apply in_map_iff. exists (shader o).
      split; [reflexivity|]. apply shader_keys_spec. eauto.
    + exact Hbad.
  - exists e. split; [|exact HQ].
    unfold _setup_pipelines, bind, lift, _group_objects_by_shaders.
    rewrite Hs. cbn [fst snd]. rewrite group_objects_spec.
    cbn [engine shaders objects set_shader_objects].
    now rewrite He.
Qed.

Lemma _setup_pipelines_unresolved_shader_witness :
  exists e,
    _setup_pipelines (snd missing_shader_staged) (fst missing_shader_staged)
    = (fst missing_shader_staged, Raise e)
    /\ (e = IndexError \/ e = TypeError).
Proof.
  apply _setup_pipelines_unresolved_shader.
  - reflexivity.
  - apply Exists_cons_tl. apply Exists_cons_hd.
    intros sh. vm_compute. discriminate.
Defined.

(** *** The slices of a batch of descriptor sets *)

Lemma firstn_seq_le (k a len : nat) :
  (k <= len)%nat -> firstn k (seq a len) = seq a k.
Proof.
  revert a len. induction k as [|k IH]; intros a len H; [reflexivity|].
  destruct len as [|len]; [lia|]. simpl. f_equal. apply IH. lia.
Qed.

Lemma slice_of_batch (h n l i : nat) :
  (i < l)%nat ->
  slice (seq h (n * l)) (i * n) (i * n + n) = seq (h + i * n) n.
Proof.
  intros H. unfold slice.
  replace (i * n + n - i * n)%nat with n by lia.
  rewrite skipn_seq. apply firstn_seq_le. nia.
Qed.

Lemma range_step_batch (n l : nat) :
  n <> 0%nat ->
  range_step (n * l) n = Ok (map (fun k => (k * n)%nat) (seq 0 l)).
Proof.
  intros H. unfold range_step.
  destruct (Nat.eqb_spec n 0); [contradiction|].
  replace ((n * l + n - 1) / n)%nat with l; [reflexivity|].
  replace (n * l + n - 1)%nat with (l * n + (n - 1))%nat by lia.
  rewrite Nat.div_add_l by exact H.
  rewrite Nat.div_small by lia. lia.
Qed.

Lemma assign_descriptor_sets_other (allocated : list handle) (objlen : nat)
      (pairs : list (nat * nat)) :
  forall objs r,
    ~ In r (map snd pairs) ->
    nth_error (assign_descriptor_sets allocated objlen pairs objs) r
    = nth_error objs r.
Proof.
  unfold assign_descriptor_sets.
  induction pairs as [|p pairs IH]; intros objs r H; [reflexivity|].
  cbn [fold_left]. rewrite IH.
  - rewrite nth_error_update_at.
    destruct (Nat.eqb_spec (snd p) r) as [E|E]; [|reflexivity].
    exfalso. apply H. now left.
  - intros Hin. apply H. now right.
Qed.

Lemma assign_descriptor_sets_nth (allocated : list handle) (objlen : nat)
      (refs : list nat) :
  forall starts objs i r,
    NoDup refs ->
    nth_error refs i = Some r ->
    nth_error
      (assign_descriptor_sets allocated objlen (combine starts refs) objs) r
    = match nth_error starts i with
      | Some s =>
          option_map
            (set_descriptor_sets (slice allocated s (s + objlen)))
            (nth_error objs r)
      | None => nth_error objs r
      end.
Proof.
  induction refs as [|r0 refs IH]; intros starts objs i r Hnd Hi.
  - destruct i; discriminate.
  - inversion Hnd as [|? ? Hr0 Hnd']; subst.
    destruct starts as [|s starts].
    + simpl. now destruct i.
    + cbn [combine]. unfold assign_descriptor_sets. cbn [fold_left fst snd].
      fold (assign_descriptor_sets allocated objlen (combine starts refs)
              (update_at objs r0
                 (set_descriptor_sets (slice allocated s (s + objlen))))).
      destruct i as [|i]; cbn [nth_error] in *.
      * inversion Hi; subst r0.
        rewrite assign_descriptor_sets_other.
        -- now rewrite nth_error_update_at, Nat.eqb_refl.
        -- intros Hin. apply Hr0. apply in_map_iff in Hin.
           destruct Hin as ([a b] & <- & Hab).
           eapply in_combine_r. exact Hab.
      * rewrite (IH starts _ i r Hnd' Hi).
        rewrite nth_error_update_at.
        destruct (Nat.eqb_spec r0 r) as [E|E]; [|reflexivity].
        exfalso. subst r0. apply Hr0. eapply nth_error_In. exact Hi.
Qed.

(** X16. One round of the loop of [_setup_descriptor_sets], for a group of
    [n] distinct objects whose shader has [l] set layouts: one batch of
    [n * l] descriptor sets is allocated; the [i]-th object of the group
    receives the [n] consecutive handles that start at position [i * n] of
    the batch when [i < l], and keeps its descriptor sets otherwise;
    objects outside the group are left as they are. *)
Theorem descriptor_sets_body_slices (pool : handle) (shs : list DataShader)
        (acc : Z * list DataGameObject) (g : Group) (sh : DataShader)
        (layouts : list DescriptorSetLayout) (v : Vk) :
  getitem_opt shs (fst g) = Ok sh ->
  descriptor_set_layouts sh = Some layouts ->
  snd g <> [] ->
  NoDup (snd g) ->
  let n := List.length (snd g) in
  let l := List.length layouts in
  exists objs',
    descriptor_sets_body pool shs acc g v
    = (mkVk (next_handle v + n * l)%nat
         (calls v
          ++ [allocate_descriptor_sets pool
                (repeat_list (map set_layout layouts) n)
                (seq (next_handle v) (n * l))]),
       Ok (fst acc
           + Py.sum (map struct_map_size_bytes layouts) * Z.of_nat n,
           objs'))
    /\ (forall i r,
          nth_error (snd g) i = Some r ->
          nth_error objs' r
          = option_map
              (fun o =>
                 if (i <? l)%nat
                 then set_descriptor_sets
                        (seq (next_handle v + i * n) n) o
                 else o)
              (nth_error (snd acc) r))
    /\ (forall r, ~ In r (snd g) ->
                  nth_error objs' r = nth_error (snd acc) r).
Proof.
  intros Hg Hl Hne Hnd n l.
  assert (Hn : n <> 0%nat).
  { unfold n. destruct (snd g); [contradiction|discriminate]. }
  assert (Hlen : List.length (repeat_list (map set_layout layouts) n)
                 = (n * l)%nat).
  { rewrite length_repeat_list, length_map. reflexivity. }
  eexists. split; [|split].
  - unfold descriptor_sets_body, bind, lift. rewrite Hg, Hl.
    unfold create_many. fold n. rewrite Hlen.
    rewrite (range_step_batch l Hn). unfold ret. cbn [next_handle calls].
    reflexivity.
  - intros i r Hi.
    rewrite (@assign_descriptor_sets_nth _ _ _ _ _ i r Hnd Hi).
    rewrite nth_error_map, nth_error_seq.
    destruct (Nat.ltb_spec i l) as [Hlt|Hge]; cbn [option_map].
    + rewrite Nat.add_0_l, slice_of_batch by exact Hlt.
      destruct (nth_error (snd acc) r); reflexivity.
    + destruct (nth_error (snd acc) r); reflexivity.
  - intros r Hr. apply assign_descriptor_sets_other.
    intros Hin. apply Hr. apply in_map_iff in Hin.
    destruct Hin as ([a b] & <- & Hab). eapply in_combine_r. exact Hab.
Qed.

Lemma descriptor_sets_body_slices_witness :
  exists objs',
    descriptor_sets_body 50%nat (shaders (snd shared_staged))
      (0, objects (snd shared_staged)) (Some 0, [0%nat; 1%nat])
      (fst shared_staged)
    = (mkVk (next_handle (fst shared_staged)
             + 2 * List.length one_block_layouts)%nat
         (calls (fst shared_staged)
          ++ [allocate_descriptor_sets 50%nat
                (repeat_list (map set_layout one_block_layouts) 2)
                (seq (next_handle (fst shared_staged))
                   (2 * List.length one_block_layouts))]),
       Ok (0 + Py.sum (map struct_map_size_bytes one_block_layouts)
               * Z.of_nat 2,
           objs'))
    /\ (forall i r,
          nth_error [0%nat; 1%nat] i = Some r ->
          nth_error objs' r
          = option_map
              (fun o =>
                 if (i <? List.length one_block_layouts)%nat
                 then set_descriptor_sets
                        (seq (next_handle (fst shared_staged) + i * 2) 2) o
                 else o)
              (nth_error (objects (snd shared_staged)) r))
    /\ (forall r, ~ In r [0%nat; 1%nat] ->
                  nth_error objs' r
                  = nth_error (objects (snd shared_staged)) r).
Proof.
  refine (@descriptor_sets_body_slices 50%nat (shaders (snd shared_staged))
            (0, objects (snd shared_staged)) (Some 0, [0%nat; 1%nat])
            one_block_compiled one_block_layouts (fst shared_staged)
            _ _ _ _).
  - vm_compute. reflexivity.
  - vm_compute. reflexivity.
  - discriminate.
  - repeat constructor; simpl; intuition discriminate.
Defined.

(** *** The write sets of one object *)

Lemma generate_write_sets_ok (ub : handle) (off : Z)
      (templates : list WriteSetTemplate) (ds : handle) :
  Forall (fun t => wst_descriptor_type t = vk.DESCRIPTOR_TYPE_UNIFORM_BUFFER)
    templates ->
  generate_write_sets ub off templates ds
  = Ok (laid_out_write_sets ub off templates ds,
        off + Py.sum (map wst_range templates)).
Proof.
  intros H. unfold generate_write_sets.
  now rewrite (generate_write_sets_loop ub ds H).
Qed.

Lemma write_sets_pairs_run (ub : handle) (ref : nat)
      (pairs : list (handle * DescriptorSetLayout)) :
  uniform_buffers_only (map snd pairs) ->
  forall (acc : Z * list DataGameObject) (v : Vk),
    for_fold pairs (write_sets_pair ub ref) acc v
    = (mkVk (next_handle v)
         (calls v
          ++ map update_descriptor_sets
               (pairs_write_sets ub (fst acc) pairs)),
       Ok (fst acc + Py.sum (map (fun p => layout_range (snd p)) pairs),
           fold_left (fun os ws => update_at os ref (set_write_sets ws))
             (pairs_write_sets ub (fst acc) pairs) (snd acc))).
Proof.
  induction pairs as [|p pairs IH]; intros Hub acc v.
  - simpl. unfold ret, Py.sum. simpl. rewrite app_nil_r, Z.add_0_r.
    destruct v, acc. reflexivity.
  - cbn [map] in Hub. inversion Hub as [|? ? Hp Hps]; subst.
    cbn [for_fold]. unfold bind. unfold write_sets_pair at 1.
    unfold bind, lift. rewrite (generate_write_sets_ok _ _ _ Hp).
    unfold call, ret. cbn [fst snd next_handle calls].
    rewrite (IH Hps). cbn [fst snd next_handle calls pairs_write_sets
      fold_left map].
    rewrite sum_cons, <- app_assoc. unfold layout_range at 3.
    cbn [app]. f_equal. f_equal. f_equal. lia.
Qed.

Lemma set_write_sets_fold_nth (ref : nat) (batches : list (list WriteSet)) :
  forall (objs : list DataGameObject) (r : nat),
    nth_error
      (fold_left (fun os ws => update_at os ref (set_write_sets ws))
         batches objs) r
    = if Nat.eqb ref r
      then option_map
             (fun o => fold_left (fun o ws => set_write_sets ws o) batches o)
             (nth_error objs r)
      else nth_error objs r.
Proof.
  induction batches as [|ws batches IH]; intros objs r.
  - simpl. destruct (Nat.eqb ref r); [|reflexivity].
    now destruct (nth_error objs r).
  - cbn [fold_left]. rewrite IH, nth_error_update_at.
    destruct (Nat.eqb ref r); [|reflexivity].
    now destruct (nth_error objs r).
Qed.

Lemma set_write_sets_last (batches : list (list WriteSet))
      (o : DataGameObject) :
  fold_left (fun o ws => set_write_sets ws o) batches o
  = match rev batches with
    | ws :: _ => set_write_sets ws o
    | [] => o
    end.
Proof.
  induction batches as [|ws batches IH] using rev_ind; [reflexivity|].
  rewrite fold_left_app, rev_app_distr. cbn [fold_left rev app].
  rewrite IH. destruct (rev batches); reflexivity.
Qed.

(** X17. The write sets of one object in
    [_setup_descriptor_write_sets], when every template is a uniform
    buffer: the object's descriptor sets are zipped with the set layouts of
    its shader (the longer of the two is cut); there is one update call
    per pair; the running offset advances by the ranges of the layouts
    paired; and [obj.write_sets] is reassigned for each pair, so it ends as
    the write sets of the last pair only. Other objects are left as they
    are. *)
Theorem write_sets_object_keeps_last (ub : handle) (sh : DataShader)
        (acc : Z * list DataGameObject) (ref : nat) (obj : DataGameObject)
        (dsets : list handle) (layouts : list DescriptorSetLayout)
        (v : Vk) :
  nth_error (snd acc) ref = Some obj ->
  descriptor_sets obj = Some dsets ->
  descriptor_set_layouts sh = Some layouts ->
  uniform_buffers_only layouts ->
  let pairs := combine dsets layouts in
  let batches := pairs_write_sets ub (fst acc) pairs in
  exists objs',
    write_sets_object ub sh acc ref v
    = (mkVk (next_handle v)
         (calls v ++ map update_descriptor_sets batches),
       Ok (fst acc + Py.sum (map (fun p => layout_range (snd p)) pairs),
           objs'))
    /\ nth_error objs' ref
       = Some match rev batches with
              | ws :: _ => set_write_sets ws obj
              | [] => obj
              end
    /\ forall r, r <> ref -> nth_error objs' r = nth_error (snd acc) r.
Proof.
  intros Ho Hd Hl Hub pairs batches.
  assert (Hub' : uniform_buffers_only (map snd pairs)).
  { unfold uniform_buffers_only in *. rewrite Forall_forall in *.
    intros l Hin. apply Hub. apply in_map_iff in Hin.
    destruct Hin as ([a b] & <- & Hab). eapply in_combine_r. exact Hab. }
  eexists. split; [|split].
  - unfold write_sets_object. rewrite Ho, Hd, Hl.
    fold pairs. rewrite (@write_sets_pairs_run ub ref pairs Hub'). reflexivity.
  - fold batches. rewrite set_write_sets_fold_nth, Nat.eqb_refl, Ho.
    cbn [option_map]. now rewrite set_write_sets_last.
  - intros r Hr. rewrite set_write_sets_fold_nth.
    destruct (Nat.eqb_spec ref r); [congruence|reflexivity].
Qed.

Lemma write_sets_object_keeps_last_witness :
  exists objs',
    write_sets_object 9%nat two_set_compiled (0, [two_set_object]) 0%nat vk0
    = (mkVk (next_handle vk0)
         (calls vk0
          ++ map update_descriptor_sets
               (pairs_write_sets 9%nat 0
                  (combine [20%nat; 21%nat] two_set_layouts))),
       Ok (0 + Py.sum (map (fun p => layout_range (snd p))
                         (combine [20%nat; 21%nat] two_set_layouts)),
           objs'))
    /\ nth_error objs' 0%nat
       = Some match rev (pairs_write_sets 9%nat 0
                           (combine [20%nat; 21%nat] two_set_layouts)) with
              | ws :: _ => set_write_sets ws two_set_object
              | [] => two_set_object
              end
    /\ forall r, r <> 0%nat ->
                 nth_error objs' r = nth_error [two_set_object] r.
Proof.
  refine (@write_sets_object_keeps_last 9%nat two_set_compiled
            (0, [two_set_object]) 0%nat two_set_object [20%nat; 21%nat]
            two_set_layouts vk0 _ _ _ _).
  - reflexivity.
  - reflexivity.
  - vm_compute. reflexivity.
  - repeat constructor.
Defined.

(** X4 at a concrete input: two templates of 64 and 16 bytes bound from
    offset 128. *)
Lemma generate_write_sets_lays_out_ranges_witness :
  generate_write_sets 9%nat 128 [mkWst 6 64 0; mkWst 6 16 1] 20%nat
  = Ok (laid_out_write_sets 9%nat 128 [mkWst 6 64 0; mkWst 6 16 1] 20%nat,
        128 + Py.sum (map wst_range [mkWst 6 64 0; mkWst 6 16 1])).
Proof.
  apply (proj1 (generate_write_sets_lays_out_ranges 9%nat 128
                  [mkWst 6 64 0; mkWst 6 16 1] 20%nat)).
  repeat constructor.
Defined.

(** *** A compilation that fails *)




